(** * scoop-easy backend: text parsers, operation classifier, audit log
      and audit middleware of [backend/main.py], embedded in Rocq.

    Python values are modelled as follows.
    - [str] is a sequence of Unicode code points ([list N]); the Unicode
      tables that Python consults ([str.lower], [str.isdigit], the decimal
      value used by [int]) are the fields of the class [Unicode], with the
      instance [latin1] for the code points below U+0100.  The white-space
      table of [str.strip] / [str.split] is small and written out in full.
    - [bytes] is a list of octets.
    - a raised exception is a value [Raise e] of the monad [result]. *)

From Stdlib Require Import List NArith ZArith Bool Lia String Ascii.
From Stdlib Require Import Floats.SpecFloat DecimalString.
Import ListNotations.

Set Implicit Arguments.
Local Open Scope N_scope.

(** ** Python text *)

Module Py.

Definition char := N.
Definition str := list char.
Definition bytes := list N.

(** A string literal of the source, as code points. *)
Definition lit (s : string) : str :=
  map N_of_ascii (list_ascii_of_string s).

Fixpoint str_eqb (a b : str) : bool :=
  match a, b with
  | [], [] => true
  | x :: a', y :: b' => N.eqb x y && str_eqb a' b'
  | _, _ => false
  end.

(** [str.isspace] on one code point: CPython's [_PyUnicode_IsWhitespace]. *)
Definition isspace (c : char) : bool :=
  ((9 <=? c) && (c <=? 13)) || ((28 <=? c) && (c <=? 32))
  || (c =? 133) || (c =? 160) || (c =? 5760)
  || ((8192 <=? c) && (c <=? 8202))
  || (c =? 8232) || (c =? 8233) || (c =? 8239) || (c =? 8287)
  || (c =? 12288).

(** [s.lstrip()], [s.rstrip()], [s.strip()]. *)
Fixpoint lstrip (s : str) : str :=
  match s with
  | c :: s' => if isspace c then lstrip s' else s
  | [] => []
  end.

Definition rstrip (s : str) : str := rev (lstrip (rev s)).

Definition strip (s : str) : str := rstrip (lstrip s).

(** [s.split(sep)] for a one-character separator: never empty. *)
Fixpoint split_on (sep : char) (s : str) : list str :=
  match s with
  | [] => [[]]
  | c :: s' =>
      if N.eqb c sep then [] :: split_on sep s'
      else match split_on sep s' with
           | w :: ws => (c :: w) :: ws
           | [] => [[c]]
           end
  end.

(** [s.split()]: the maximal runs of non-white-space characters.
    [cur] is the run being read, reversed. *)
Fixpoint split_ws_aux (cur : str) (s : str) : list str :=
  match s with
  | [] => match cur with [] => [] | _ => [rev cur] end
  | c :: s' =>
      if isspace c
      then match cur with
           | [] => split_ws_aux [] s'
           | _ => rev cur :: split_ws_aux [] s'
           end
      else split_ws_aux (c :: cur) s'
  end.

Definition split (s : str) : list str := split_ws_aux [] s.

(** [s.startswith(p)]. *)
Fixpoint startswith (s p : str) : bool :=
  match p, s with
  | [], _ => true
  | x :: p', y :: s' => N.eqb x y && startswith s' p'
  | _ :: _, [] => false
  end.

(** [s.endswith(p)]. *)
Definition endswith (s p : str) : bool := startswith (rev s) (rev p).

(** [p in s] for two strings: [p] occurs in [s]. *)
Fixpoint contains (p s : str) : bool :=
  startswith s p ||
  match s with
  | [] => false
  | _ :: s' => contains p s'
  end.

(** [sep.join(ws)]. *)
Fixpoint join (sep : str) (ws : list str) : str :=
  match ws with
  | [] => []
  | [w] => w
  | w :: ws' => w ++ sep ++ join sep ws'
  end.

(** [str(z)] for an integer. *)
Definition decimal (z : Z) : str := lit (NilZero.string_of_int (Z.to_int z)).

(** The Unicode tables of the interpreter that the source consults. *)
Class Unicode := {
  lower : str -> str;               (* str.lower *)
  isdigit_cp : char -> bool;        (* Numeric_Type = Digit or Decimal *)
  decimal_cp : char -> option N     (* value when Numeric_Type = Decimal *)
}.

(** [s.isdigit()]: non-empty and every character is a digit. *)
Definition isdigit `{Unicode} (s : str) : bool :=
  match s with
  | [] => false
  | _ => forallb isdigit_cp s
  end.

(** The value [int(s)] computes for a string of decimal digits;
    [None] stands for [ValueError]. *)
Fixpoint int_digits `{Unicode} (acc : N) (s : str) : option N :=
  match s with
  | [] => Some acc
  | c :: s' =>
      match decimal_cp c with
      | Some d => int_digits (10 * acc + d) s'
      | None => None
      end
  end.

(** The tables below U+0100; code points above are left unchanged by
    [lower] and are neither digits nor decimals here. *)
Definition latin1_lower_cp (c : char) : char :=
  if ((65 <=? c) && (c <=? 90))
     || ((192 <=? c) && (c <=? 222) && negb (c =? 215))
  then c + 32 else c.

#[export] Instance latin1 : Unicode := {
  lower := map latin1_lower_cp;
  isdigit_cp c :=
    ((48 <=? c) && (c <=? 57)) || (c =? 178) || (c =? 179) || (c =? 185);
  decimal_cp c := if (48 <=? c) && (c <=? 57) then Some (c - 48) else None
}.

End Py.

(** ** Exceptions *)

Module Exc.
Import Py.

(** The exception classes that occur in [main.py] and in the library
    calls it makes.  [CancelledError] and [KeyboardInterrupt] derive from
    [BaseException] only. *)
Inductive exn_class :=
  | IndexError | KeyError | ValueError | TypeError | AttributeError
  | JSONDecodeError | UnicodeDecodeError | OverflowError
  | OperationalError | ProgrammingError | TimeoutError | UnboundLocalError
  | UnicodeEncodeError
  | CancelledError | KeyboardInterrupt.

Inductive exn :=
  | Exn (c : exn_class) (msg : str)
  | HTTPException (status_code : Z) (detail : str).

(** [isinstance(e, Exception)]: what [except Exception] catches. *)
Definition is_Exception (e : exn) : bool :=
  match e with
  | Exn CancelledError _ | Exn KeyboardInterrupt _ => false
  | _ => true
  end.

(** [str(e)]: the message of a built-in exception; for
    [HTTPException] it is "<status_code>: <detail>". *)
Definition str_of_exn (e : exn) : str :=
  match e with
  | Exn _ m => m
  | HTTPException c d => decimal c ++ lit ": " ++ d
  end.

(** A surrogate code point: a [str] may hold one, UTF-8 cannot. *)
Definition surrogate (c : char) : bool := (55296 <=? c) && (c <=? 57343).

(** The number of characters at the head of [s] that [bad] holds of. *)
Fixpoint run_length (bad : char -> bool) (s : str) : N :=
  match s with
  | c :: s' => if bad c then 1 + run_length bad s' else 0
  | [] => 0
  end.

(** The first run of [bad] characters of [s]: its position (counted
    from [i]), its first character and its length. *)
Fixpoint find_run (bad : char -> bool) (i : N) (s : str)
  : option (N * char * N) :=
  match s with
  | [] => None
  | c :: s' =>
      if bad c then Some (i, c, 1 + run_length bad s')
      else find_run bad (i + 1) s'
  end.

Definition hex_digit (d : N) : char := if d <? 10 then 48 + d else 87 + d.

(** The four hexadecimal digits of a number below 65536. *)
Definition hex4 (c : N) : str :=
  [hex_digit (c / 4096); hex_digit ((c / 256) mod 16);
   hex_digit ((c / 16) mod 16); hex_digit (c mod 16)].

(** A character above U+00FF as an error message escapes it. *)
Definition escape (c : char) : str :=
  if c <? 65536 then [92; 117] ++ hex4 c
  else [92; 85] ++ hex4 (c / 65536) ++ hex4 (c mod 65536).

(** The [UnicodeEncodeError] of [s.encode(codec)], if it raises:
    [bad] tells the characters the codec cannot encode. *)
Definition encode_error (codec reason : str) (bad : char -> bool) (s : str)
  : option exn :=
  match find_run bad 0 s with
  | None => None
  | Some (i, c, n) =>
      Some (Exn UnicodeEncodeError
              (lit "'" ++ codec ++ lit "' codec can't encode " ++
               (if n =? 1
                then lit "character '" ++ escape c
                     ++ lit "' in position " ++ decimal (Z.of_N i)
                else lit "characters in position " ++ decimal (Z.of_N i)
                     ++ lit "-" ++ decimal (Z.of_N (i + n - 1)))
               ++ lit ": " ++ reason))
  end.

(** [s.encode("utf-8")] fails on a lone surrogate. *)
Definition utf8_error : str -> option exn :=
  encode_error (lit "utf-8") (lit "surrogates not allowed") surrogate.

(** [s.encode("latin-1")] fails on a character above U+00FF. *)
Definition latin1_error : str -> option exn :=
  encode_error (lit "latin-1") (lit "ordinal not in range(256)")
    (fun c => 255 <? c).

(** The text can be encoded in UTF-8. *)
Definition encodable (s : str) : bool :=
  match utf8_error s with None => true | Some _ => false end.

(** The text can be encoded in Latin-1. *)
Definition latin1_text (s : str) : bool :=
  match latin1_error s with None => true | Some _ => false end.

Inductive result (A : Type) :=
  | Ret (a : A)
  | Raise (e : exn).
Arguments Ret {A} a.
Arguments Raise {A} e.

Definition bind {A B} (m : result A) (k : A -> result B) : result B :=
  match m with
  | Ret a => k a
  | Raise e => Raise e
  end.

(** [for x in l: s = body(s, x)], stopping at the first exception. *)
Fixpoint for_each {S A} (body : S -> A -> result S) (l : list A) (s : S)
  : result S :=
  match l with
  | [] => Ret s
  | x :: l' => bind (body s x) (for_each body l')
  end.

(** [l[i]] *)
Definition index {A} (l : list A) (i : nat) : result A :=
  match nth_error l i with
  | Some x => Ret x
  | None => Raise (Exn IndexError (lit "list index out of range"))
  end.

End Exc.

Declare Scope py_scope.
Delimit Scope py_scope with py.
Notation "x <- m ;; k" := (Exc.bind m (fun x => k))
  (at level 61, m at next level, right associativity) : py_scope.
Notation "'raise' e" := (Exc.Raise e) (at level 10) : py_scope.

(** ** OutputParser *)

Module Parser.
Import Py Exc.
Local Open Scope py_scope.

(** One element of the list returned by [parse_list_output]. *)
Record app_row := AppRow {
  name : str;
  version : str;
  bucket : str;
  updated : option str;
  held : bool
}.

(** The body of the loop of [parse_list_output], for one [line]. *)
Definition parse_list_line (apps : list app_row) (line : str)
  : result (list app_row) :=
  let line := strip line in
  if match line with [] => true | _ => false end
     || startswith line (lit "Installed")
     || startswith line (lit "Name")
     || startswith line (lit "-")
  then Ret apps
  else
    let parts := split line in
    if (2 <=? List.length parts)%nat then
      name <- index parts 0 ;;
      version <- index parts 1 ;;
      bucket <- (if (2 <? List.length parts)%nat then index parts 2
                 else Ret (lit "main")) ;;
      updated <- (if (3 <? List.length parts)%nat then
                    p3 <- index parts 3 ;;
                    if (4 <? List.length parts)%nat then
                      p4 <- index parts 4 ;;
                      Ret (Some (p3 ++ lit " " ++ p4))
                    else Ret (Some p3)
                  else Ret None) ;;
      let held := contains (lit "Held") line in
      Ret (apps ++ [AppRow name version bucket updated held])
    else Ret apps.

Definition parse_list_output (output : str) : result (list app_row) :=
  let lines := split_on 10 (strip output) in
  for_each parse_list_line lines [].

(** A Python [dict] with string keys: the items in insertion order,
    one item per key. *)
Definition dict (V : Type) := list (str * V).

Fixpoint dict_get {V} (d : dict V) (k : str) : option V :=
  match d with
  | [] => None
  | (k', v) :: d' => if str_eqb k' k then Some v else dict_get d' k
  end.

(** [d[k] = v]: overwrite in place, or append a new item. *)
Fixpoint dict_set {V} (d : dict V) (k : str) (v : V) : dict V :=
  match d with
  | [] => [(k, v)]
  | (k', v') :: d' =>
      if str_eqb k' k then (k', v) :: d' else (k', v') :: dict_set d' k v
  end.

(** [k in d] *)
Definition dict_mem {V} (d : dict V) (k : str) : bool :=
  match dict_get d k with Some _ => true | None => false end.

(** The test of [parse_status_output] under which a line is skipped. *)
Definition status_skipped `{Unicode} (line : str) : bool :=
  match line with [] => true | _ => false end
  || contains (lit "WARN") line
  || contains (lit "Name") line
  || startswith line (lit "-")
  || contains (lit "held") (lower line).

(** The body of the loop of [parse_status_output]. *)
Definition parse_status_line `{Unicode} (updates : dict str) (line : str)
  : result (dict str) :=
  let line := strip line in
  if status_skipped line then Ret updates
  else
    let parts := split line in
    if (3 <=? List.length parts)%nat then
      name <- index parts 0 ;;
      latest <- index parts 2 ;;
      Ret (dict_set updates name latest)
    else Ret updates.

(** The item a line contributes to the mapping, if it is not skipped
    and has at least three tokens. *)
Definition status_item `{Unicode} (line : str) : option (str * str) :=
  let line := strip line in
  if status_skipped line then None
  else match split line with
       | name :: _ :: latest :: _ => Some (name, latest)
       | _ => None
       end.

(** What one line does to the mapping being built. *)
Definition status_step `{Unicode} (d : dict str) (line : str) : dict str :=
  match status_item line with
  | Some (k, v) => dict_set d k v
  | None => d
  end.

(** The number of items of [d] under the key [k]. *)
Definition count_key {V} (d : dict V) (k : str) : nat :=
  List.length (filter (fun kv => str_eqb (fst kv) k) d).

Definition parse_status_output `{Unicode} (output : str)
  : result (dict str) :=
  let lines := split_on 10 (strip output) in
  for_each parse_status_line lines [].

(** One [BucketInfo] built by [get_buckets]. *)
Record bucket_info := BucketInfo {
  b_name : str;
  b_source : str;
  b_updated : option str;
  b_manifests : option N
}.

(** The number of decimal digits at the head of [s]. *)
Fixpoint leading_digits `{Unicode} (s : str) : nat :=
  match s with
  | c :: s' =>
      match decimal_cp c with
      | Some _ => S (leading_digits s')
      | None => O
      end
  | [] => O
  end.

(** [sys.get_int_max_str_digits()], as the interpreter starts. *)
Definition max_str_digits : nat := 4300.

Definition exceeds_limit (digits : nat) : exn :=
  Exn ValueError
    (lit "Exceeds the limit (4300 digits) for integer string conversion: value has "
     ++ decimal (Z.of_nat digits)
     ++ lit " digits; use sys.set_int_max_str_digits() to increase the limit").

Definition invalid_literal (s : str) : exn :=
  Exn ValueError (lit "invalid literal for int() with base 10: '" ++ s ++ lit "'").

(** [int(s)] for a string without sign, space or underscore: more
    leading digits than the interpreter's limit are refused first;
    else the value of the decimal digits, or [ValueError] when a
    character is not a decimal digit. *)
Definition int_of `{Unicode} (s : str) : result N :=
  if (max_str_digits <? leading_digits s)%nat
  then raise (exceeds_limit (leading_digits s))
  else
    match s with
    | [] => raise (invalid_literal s)
    | _ => match int_digits 0 s with
           | Some n => Ret n
           | None => raise (invalid_literal s)
           end
    end.

(** The body of the parsing loop of [get_buckets]. *)
Definition get_buckets_line `{Unicode} (buckets : list bucket_info)
  (line : str) : result (list bucket_info) :=
  let line := strip line in
  if match line with [] => true | _ => false end
     || startswith line (lit "Name")
     || startswith line (lit "-")
  then Ret buckets
  else
    let parts := split line in
    if (2 <=? List.length parts)%nat then
      name <- index parts 0 ;;
      source <- index parts 1 ;;
      um <- (if (4 <=? List.length parts)%nat then
               p2 <- index parts 2 ;;
               p3 <- index parts 3 ;;
               let updated := Some (p2 ++ lit " " ++ p3) in
               if (5 <=? List.length parts)%nat then
                 p4 <- index parts 4 ;;
                 if isdigit p4 then
                   n <- int_of p4 ;;
                   Ret (updated, Some n)
                 else Ret (updated, None)
               else Ret (updated, None)
             else Ret (None, None)) ;;
      Ret (buckets ++ [BucketInfo name source (fst um) (snd um)])
    else Ret buckets.

(** The parsing part of [get_buckets], applied to the standard output of
    [scoop bucket list]. *)
Definition get_buckets_parse `{Unicode} (stdout : str)
  : result (list bucket_info) :=
  let lines := split_on 10 (strip stdout) in
  for_each get_buckets_line lines [].

(** [VersionInfo] / [SearchResult]: name, version, bucket. *)
Record version_info := VersionInfo {
  v_name : str;
  v_version : str;
  v_bucket : str
}.

(** The longest prefix whose characters satisfy [p], and the rest. *)
Fixpoint span (p : char -> bool) (s : str) : str * str :=
  match s with
  | c :: s' =>
      if p c then let (a, b) := span p s' in (c :: a, b) else ([], s)
  | [] => ([], [])
  end.

(** [re.match(r'^(\S+)\s+\(([^)]+)\)', line)]: groups 1 and 2. *)
Definition match_name_version (line : str) : option (str * str) :=
  let (name, r1) := span (fun c => negb (isspace c)) line in
  let (ws, r2) := span isspace r1 in
  match name, ws, r2 with
  | _ :: _, _ :: _, 40 :: r3 =>
      let (ver, r4) := span (fun c => negb (c =? 41)) r3 in
      match ver, r4 with
      | _ :: _, 41 :: _ => Some (name, ver)
      | _, _ => None
      end
  | _, _, _ => None
  end.

(** The filter of [get_available_versions]: the name equals the query
    or starts with the query and a hyphen, case-insensitively. *)
Definition same_app `{Unicode} (app_name name : str) : bool :=
  str_eqb (lower app_name) (lower name)
  || startswith (lower app_name) (lower name ++ lit "-").

(** The loop body for the output of [scoop-search]; the state is the
    current bucket and the records found.  [keep] is the filter on
    the application name. *)
Definition grouped_line `{Unicode} (keep : str -> bool)
  (st : str * list version_info) (line : str)
  : result (str * list version_info) :=
  let (current_bucket, versions) := st in
  let line := strip line in
  match line with
  | [] => Ret st
  | _ =>
    if startswith line (lit "'") && contains (lit "bucket") (lower line) then
      if contains (lit "'") line then
        b <- index (split_on 39 line) 1 ;;
        Ret (b, versions)
      else Ret (lit "unknown", versions)
    else if startswith line (lit "Results") then Ret st
    else
      match match_name_version line with
      | Some (app_name, version) =>
          if keep app_name
          then Ret (current_bucket,
                    versions ++ [VersionInfo app_name version current_bucket])
          else Ret st
      | None => Ret st
      end
  end.

(** The loop body for the table printed by [scoop search]; [skip] is
    the test on the line that differs between the two handlers. *)
Definition tabular_line (skip keep : str -> bool)
  (versions : list version_info) (line : str) : result (list version_info) :=
  let line := strip line in
  if match line with [] => true | _ => false end || skip line
  then Ret versions
  else
    let parts := split line in
    if (3 <=? List.length parts)%nat then
      app_name <- index parts 0 ;;
      version <- index parts 1 ;;
      source <- index parts 2 ;;
      if keep app_name
      then Ret (versions ++ [VersionInfo app_name version source])
      else Ret versions
    else Ret versions.

(** The parsing part of [get_available_versions(name)]. *)
Definition get_available_versions_parse `{Unicode}
  (use_scoop_search : bool) (name output : str) : result (list version_info) :=
  let lines := split_on 10 (strip output) in
  if use_scoop_search then
    st <- for_each (grouped_line (fun a => same_app a name)) lines
            (lit "unknown", []) ;;
    Ret (snd st)
  else
    for_each
      (tabular_line
         (fun line => contains (lit "Results") line
                      || startswith line (lit "-")
                      || startswith line (lit "Name"))
         (fun a => same_app a name))
      lines [].

(** The parsing part of [search_apps(q)]. *)
Definition search_apps_parse `{Unicode}
  (use_scoop_search : bool) (output : str) : result (list version_info) :=
  let lines := split_on 10 (strip output) in
  if use_scoop_search then
    st <- for_each (grouped_line (fun _ => true)) lines (lit "unknown", []) ;;
    Ret (snd st)
  else
    for_each
      (tabular_line
         (fun line => startswith line (lit "Results")
                      || startswith line (lit "-")
                      || startswith line (lit "Name"))
         (fun _ => true))
      lines [].

End Parser.

(** ** Python values decoded from JSON *)

Module Value.
Import Py Exc Parser.
Local Open Scope py_scope.

(** What [json.loads] can return. *)
#[local] Unset Elimination Schemes.
Inductive pyval :=
  | PNone
  | PBool (b : bool)
  | PInt (z : Z)
  | PFloat (f : spec_float)
  | PStr (s : str)
  | PList (l : list pyval)
  | PDict (d : list (str * pyval)).
#[local] Set Elimination Schemes.

(** [bool(v)] *)
Definition truthy (v : pyval) : bool :=
  match v with
  | PNone => false
  | PBool b => b
  | PInt z => negb (Z.eqb z 0)
  | PFloat (S754_zero _) => false
  | PFloat _ => true
  | PStr s => match s with [] => false | _ => true end
  | PList l => match l with [] => false | _ => true end
  | PDict d => match d with [] => false | _ => true end
  end.

(** [type(v).__name__] *)
Definition type_name (v : pyval) : str :=
  match v with
  | PNone => lit "NoneType"
  | PBool _ => lit "bool"
  | PInt _ => lit "int"
  | PFloat _ => lit "float"
  | PStr _ => lit "str"
  | PList _ => lit "list"
  | PDict _ => lit "dict"
  end.

(** [v == k] for a string [k]. *)
Definition eq_str (v : pyval) (k : str) : bool :=
  match v with
  | PStr s => str_eqb s k
  | _ => false
  end.

(** [k in data] for a string [k]: key of a dict, element of a list,
    substring of a string; [TypeError] for the other values. *)
Definition py_in (k : str) (data : pyval) : result bool :=
  match data with
  | PDict d => Ret (dict_mem d k)
  | PList l => Ret (existsb (fun x => eq_str x k) l)
  | PStr s => Ret (contains k s)
  | _ => raise (Exn TypeError (lit "argument of type '" ++ type_name data
                               ++ lit "' is not iterable"))
  end.

(** [data[k]] for a string [k]. *)
Definition getitem (data : pyval) (k : str) : result pyval :=
  match data with
  | PDict d =>
      match dict_get d k with
      | Some v => Ret v
      | None => raise (Exn KeyError k)
      end
  | PList _ =>
      raise (Exn TypeError (lit "list indices must be integers or slices, not str"))
  | PStr _ =>
      raise (Exn TypeError (lit "string indices must be integers, not 'str'"))
  | _ => raise (Exn TypeError (lit "'" ++ type_name data
                               ++ lit "' object is not subscriptable"))
  end.

(** [data.get(k, default)]: only a dict has the method. *)
Definition get (data : pyval) (k : str) (default : pyval) : result pyval :=
  match data with
  | PDict d =>
      match dict_get d k with
      | Some v => Ret v
      | None => Ret default
      end
  | _ => raise (Exn AttributeError (lit "'" ++ type_name data
                                    ++ lit "' object has no attribute 'get'"))
  end.

(** The strings of a list of values, when all of them are strings. *)
Fixpoint all_str (l : list pyval) : option (list str) :=
  match l with
  | [] => Some []
  | PStr s :: l' =>
      match all_str l' with
      | Some ss => Some (s :: ss)
      | None => None
      end
  | _ :: _ => None
  end.

(** [sep.join(v)]: [v] is iterated; every item must be a string. *)
Definition join_val (sep : str) (v : pyval) : result str :=
  match v with
  | PList l =>
      match all_str l with
      | Some ss => Ret (join sep ss)
      | None => raise (Exn TypeError (lit "sequence item: expected str instance"))
      end
  | PStr s => Ret (join sep (map (fun c => [c]) s))
  | PDict d => Ret (join sep (map fst d))
  | _ => raise (Exn TypeError (lit "can only join an iterable"))
  end.

(** Functions of the Python library whose tables or algorithms are not
    part of the repository. *)
Class Library := {
  json_loads : bytes -> result pyval;     (* json.loads(b) *)
  decode_replace : bytes -> str;          (* b.decode("utf-8", errors="replace") *)
  decode_ignore : bytes -> str;           (* b.decode("utf-8", errors="ignore") *)
  repr : pyval -> str;                    (* repr(v); str(v) is the same unless v is a str *)
  real_text : spec_float -> str;          (* SQLite's text rendering of a REAL *)
  unicode : Unicode                       (* the interpreter's Unicode tables *)
}.

(** [f"{v}"] *)
Definition format `{Library} (v : pyval) : str :=
  match v with
  | PStr s => s
  | _ => repr v
  end.

End Value.

(** ** OperationClassifier *)

Module Classifier.
Import Py Exc Parser Value.
Local Open Scope py_scope.

(** The operation labels of the source (Chinese text), as code points,
    with an English gloss. *)
Definition L_list_apps : str :=      (* query installed apps *)
  [26597; 35810; 24050; 23433; 35013; 24212; 29992].
Definition L_list_buckets : str :=   (* query buckets *)
  [26597; 35810; 36719; 20214; 26742].
Definition L_versions : str := [26597; 35810; 29256; 26412].
Definition L_related : str := [26597; 35810; 20851; 32852; 24212; 29992].
Definition L_info : str := [26597; 30475; 20449; 24687].
Definition L_search : str := [25628; 32034; 36719; 20214].
Definition L_update : str := [26356; 26032; 24212; 29992].
Definition L_uninstall : str := [21368; 36733; 24212; 29992].
Definition L_install : str := [23433; 35013; 24212; 29992].
Definition L_add_bucket : str := [28155; 21152; 36719; 20214; 26742].
Definition L_hold : str := [38145; 23450; 24212; 29992].
Definition L_reset : str := [20999; 25442; 29256; 26412].
Definition L_unhold : str := [35299; 38145; 24212; 29992].
Definition L_rm_bucket : str := [31227; 38500; 36719; 20214; 26742].

(** All the labels. *)
Definition labels : list str :=
  [L_list_apps; L_list_buckets; L_versions; L_related; L_info; L_search;
   L_update; L_uninstall; L_install; L_add_bucket; L_hold; L_reset;
   L_unhold; L_rm_bucket].

(** "read <app_name>'s manifest.json" *)
Definition read_manifest_text (app_name : str) : str :=
  [35835; 21462; 32] ++ app_name ++ [32; 30340; 32] ++ lit "manifest.json".

Definition info := option (str * str).

(** [OPERATION_MAP]: keys are (method, path); [None] marks a route that
    is not audited. *)
Definition OPERATION_MAP : list ((str * str) * info) :=
  [ ((lit "GET", lit "/api/apps"), Some (L_list_apps, lit "scoop list"));
    ((lit "GET", lit "/api/buckets"), Some (L_list_buckets, lit "scoop bucket list"));
    ((lit "GET", lit "/api/logs"), None);
    ((lit "DELETE", lit "/api/logs"), None);
    ((lit "GET", lit "/api/settings"), None);
    ((lit "POST", lit "/api/settings"), None) ].

Fixpoint map_lookup (m : list ((str * str) * info)) (method path : str)
  : option info :=
  match m with
  | [] => None
  | ((m', p'), v) :: rest =>
      if str_eqb m' method && str_eqb p' path then Some v
      else map_lookup rest method path
  end.

(** [path.split("/")[3]] *)
Definition segment3 (path : str) : result str :=
  index (split_on 47 path) 3.

Definition get_operation_info `{Library}
  (method path : str) (query_params : dict str) (body : pyval)
  : result info :=
  match map_lookup OPERATION_MAP method path with
  | Some v => Ret v
  | None =>
    let under_apps := startswith path (lit "/api/apps/") in
    if str_eqb method (lit "GET") then
      if under_apps && endswith path (lit "/versions") then
        app_name <- segment3 path ;;
        Ret (Some (L_versions, lit "scoop search " ++ app_name))
      else if under_apps && endswith path (lit "/related") then
        app_name <- segment3 path ;;
        Ret (Some (L_related, read_manifest_text app_name))
      else if under_apps && endswith path (lit "/info") then
        app_name <- segment3 path ;;
        Ret (Some (L_info, read_manifest_text app_name))
      else if str_eqb path (lit "/api/search") && dict_mem query_params (lit "q") then
        match dict_get query_params (lit "q") with
        | Some q => Ret (Some (L_search, lit "scoop search " ++ q))
        | None => raise (Exn KeyError (lit "q"))
        end
      else Ret None
    else if str_eqb method (lit "POST") then
      if str_eqb path (lit "/api/apps/update") then
        apps <- get body (lit "apps") (PList []) ;;
        joined <- join_val (lit " ") apps ;;
        Ret (Some (L_update, lit "scoop update " ++ joined))
      else if str_eqb path (lit "/api/apps/uninstall") then
        apps <- get body (lit "apps") (PList []) ;;
        joined <- join_val (lit " ") apps ;;
        Ret (Some (L_uninstall, lit "scoop uninstall " ++ joined))
      else if str_eqb path (lit "/api/apps/install") then
        let name := match dict_get query_params (lit "name") with
                    | Some n => n
                    | None => []
                    end in
        bucket <- get body (lit "bucket") (PStr []) ;;
        let cmd := if truthy bucket
                   then lit "scoop install " ++ format bucket ++ lit "/" ++ name
                   else lit "scoop install " ++ name in
        Ret (Some (L_install, cmd))
      else if str_eqb path (lit "/api/buckets") then
        name <- get body (lit "name") (PStr []) ;;
        url <- get body (lit "url") (PStr []) ;;
        let cmd := if truthy url
                   then strip (lit "scoop bucket add " ++ format name
                               ++ lit " " ++ format url)
                   else lit "scoop bucket add " ++ format name in
        Ret (Some (L_add_bucket, cmd))
      else if str_eqb path (lit "/api/apps/hold") then
        apps <- get body (lit "apps") (PList []) ;;
        joined <- join_val (lit " ") apps ;;
        Ret (Some (L_hold, lit "scoop hold " ++ joined))
      else if under_apps && endswith path (lit "/hold") then
        app_name <- segment3 path ;;
        Ret (Some (L_hold, lit "scoop hold " ++ app_name))
      else if under_apps && endswith path (lit "/reset") then
        app_name <- segment3 path ;;
        version <- get body (lit "version") PNone ;;
        target_app <- get body (lit "target_app") PNone ;;
        if truthy target_app then
          Ret (Some (L_reset, lit "scoop reset " ++ format target_app))
        else if truthy version then
          Ret (Some (L_reset, lit "scoop reset " ++ app_name ++ lit "@"
                              ++ format version))
        else Ret None
      else Ret None
    else if str_eqb method (lit "DELETE") then
      if str_eqb path (lit "/api/apps/hold") then
        apps <- get body (lit "apps") (PList []) ;;
        joined <- join_val (lit " ") apps ;;
        Ret (Some (L_unhold, lit "scoop unhold " ++ joined))
      else if under_apps && endswith path (lit "/hold") then
        app_name <- segment3 path ;;
        Ret (Some (L_unhold, lit "scoop unhold " ++ app_name))
      else if startswith path (lit "/api/buckets/") then
        bucket_name <- segment3 path ;;
        Ret (Some (L_rm_bucket, lit "scoop bucket rm " ++ bucket_name))
      else Ret None
    else Ret None
  end.

End Classifier.

(** ** AuditLog: the SQLite table [logs] *)

Module AuditLog.
Import Py Exc Parser Value.
Local Open Scope py_scope.

(** One row of the table; [row_id] is the AUTOINCREMENT primary key and
    [success] the stored integer. *)
Record row := Row {
  row_id : N;
  time : str;
  operation : str;
  command : str;
  success : Z;
  message : str
}.

(** The file [LOG_DB_FILE]: absent, present without the table, or
    holding the table.  [seq] is the largest key ever handed out
    (SQLite's [sqlite_sequence]); it survives [DELETE FROM logs]. *)
Inductive db :=
  | NoFile
  | NoTable
  | Logs (rows : list row) (seq : N).

(** A statement that runs against the store: its outcome and the store
    it leaves behind. *)
Definition io (A : Type) := db -> result A * db.

Definition no_such_table : exn := Exn OperationalError (lit "no such table: logs").

(** [CREATE TABLE IF NOT EXISTS logs ...] *)
Definition init_log_db : io unit :=
  fun s =>
    match s with
    | Logs rows seq => (Ret tt, Logs rows seq)
    | _ => (Ret tt, Logs [] 0)
    end.

(** SQLite integers are 64-bit signed; the driver refuses others. *)
Definition int64 (z : Z) : bool :=
  (Z.leb (- 2 ^ 63) z && Z.ltb z (2 ^ 63))%Z.

(** Binding a text parameter encodes it in UTF-8. *)
Definition bind_text (s : str) : result str :=
  match utf8_error s with
  | Some e => raise e
  | None => Ret s
  end.

(** The text stored for [message or ""]: a string as it is when UTF-8
    can encode it, a number in the rendering of the column's TEXT
    affinity, no list and no dict.  [real_text] renders a float. *)
Definition stored_message `{Library} (message : pyval) : result str :=
  if negb (truthy message) then Ret []
  else
    match message with
    | PStr s => bind_text s
    | PBool _ => Ret (lit "1")
    | PInt z =>
        if int64 z then Ret (decimal z)
        else raise (Exn OverflowError
                      (lit "Python int too large to convert to SQLite INTEGER"))
    | PFloat f => Ret (real_text f)
    | PNone => Ret []
    | PList _ | PDict _ =>
        raise (Exn ProgrammingError
                 (lit "Error binding parameter 5: type '" ++ type_name message
                  ++ lit "' is not supported"))
    end.

(** [append_log(operation, command, success, message)]; [now] is
    [datetime.now().isoformat()], which is ASCII.  The statement is
    prepared first (the table must exist), then the parameters are
    bound in order; nothing is written when a binding fails. *)
Definition append_log `{Library}
  (operation command : str) (success : bool) (message : pyval) (now : str)
  : io unit :=
  fun s =>
    match s with
    | NoFile | NoTable => (raise no_such_table, NoTable)
    | Logs rows seq =>
        match (operation <- bind_text operation ;;
               command <- bind_text command ;;
               m <- stored_message message ;;
               Ret (operation, command, m)) with
        | Ret (operation, command, m) =>
            let r := Row (seq + 1) now operation command
                         (if success then 1 else 0)%Z m in
            (Ret tt, Logs (rows ++ [r]) (seq + 1))
        | Raise e => (raise e, Logs rows seq)
        end
    end.

(** [ORDER BY id DESC] *)
Fixpoint insert_desc (r : row) (l : list row) : list row :=
  match l with
  | [] => [r]
  | x :: l' =>
      if row_id x <=? row_id r then r :: l else x :: insert_desc r l'
  end.

Fixpoint order_by_id_desc (l : list row) : list row :=
  match l with
  | [] => []
  | r :: l' => insert_desc r (order_by_id_desc l')
  end.

(** [LIMIT n]: a negative [n] is no limit. *)
Definition sql_limit {A} (n : Z) (l : list A) : list A :=
  if (n <? 0)%Z then l else firstn (Z.to_nat n) l.

(** One dict of the list [read_logs] returns. *)
Record entry := Entry {
  e_time : str;
  e_operation : str;
  e_command : str;
  e_success : bool;
  e_message : str
}.

Definition entry_of_row (r : row) : entry :=
  Entry (time r) (operation r) (command r)
        (negb (Z.eqb (success r) 0)) (message r).

Definition read_logs (limit : Z) : io (list entry) :=
  fun s =>
    match s with
    | NoFile => (Ret [], NoFile)
    | NoTable => (raise no_such_table, NoTable)
    | Logs rows seq =>
        if int64 limit then
          (Ret (map entry_of_row (sql_limit limit (order_by_id_desc rows))),
           Logs rows seq)
        else
          (raise (Exn OverflowError
                    (lit "Python int too large to convert to SQLite INTEGER")),
           Logs rows seq)
    end.

Definition clear_logs : io unit :=
  fun s =>
    match s with
    | NoFile => (Ret tt, NoFile)
    | NoTable => (raise no_such_table, NoTable)
    | Logs _ seq => (Ret tt, Logs [] seq)
    end.

(** One call [append_log(operation, command, success, message)] with a
    text message, made when the clock reads [c_now], whose texts the
    driver can bind: an entry that is appended. *)
Record call := Call {
  c_operation : str;
  c_command : str;
  c_success : bool;
  c_message : str;
  c_now : str;
  c_bound :
    encodable c_operation && encodable c_command && encodable c_message = true
}.

(** The calls of [cs] in sequence, up to the first that raises. *)
Fixpoint append_all `{Library} (cs : list call) : io unit :=
  fun s =>
    match cs with
    | [] => (Ret tt, s)
    | c :: cs' =>
        match append_log (c_operation c) (c_command c) (c_success c)
                (PStr (c_message c)) (c_now c) s with
        | (Ret _, s') => append_all cs' s'
        | (Raise e, s') => (Raise e, s')
        end
    end.

(** The entry a call is read back as. *)
Definition entry_of_call (c : call) : entry :=
  Entry (c_now c) (c_operation c) (c_command c) (c_success c) (c_message c).

(** The rows [cs] adds to a table whose last key is [seq]. *)
Fixpoint rows_from (seq : N) (cs : list call) : list row :=
  match cs with
  | [] => []
  | c :: cs' =>
      Row (seq + 1) (c_now c) (c_operation c) (c_command c)
          (if c_success c then 1 else 0)%Z (c_message c)
      :: rows_from (seq + 1) cs'
  end.

(** [get_logs(limit)], the handler of GET /api/logs. *)
Definition get_logs (limit : Z) : io (list entry) := read_logs limit.

End AuditLog.

(** ** AuditMiddleware *)

Module Middleware.
Import Py Exc Parser Value Classifier AuditLog.
Local Open Scope py_scope.

(** [extract_scoop_output(response_body)] *)
Definition extract_scoop_output `{Library} (response_body : bytes)
  : result pyval :=
  match response_body with
  | [] => Ret (PStr [])
  | _ =>
    match json_loads response_body with
    | Raise (Exn JSONDecodeError _) | Raise (Exn TypeError _) =>
        Ret (PStr (decode_replace response_body))
    | Raise e => raise e
    | Ret data =>
        has_message <- py_in (lit "message") data ;;
        if has_message then getitem data (lit "message")
        else
          has_detail <- py_in (lit "detail") data ;;
          if has_detail then getitem data (lit "detail")
          else
            has_results <- py_in (lit "results") data ;;
            if has_results then
              results <- getitem data (lit "results") ;;
              match results with
              | PList l =>
                  if truthy results then
                    first <- index l 0 ;;
                    get first (lit "message") (PStr [])
                  else Ret (PStr [])
              | _ => Ret (PStr [])
              end
            else Ret (PStr [])
    end
  end.

(** What the middleware reads of a request.  [query] lists the query
    parameters as they were sent, repetitions included. *)
Record request := Request {
  method : str;
  path : str;
  query : list (str * str);
  req_body : bytes
}.

(** A response: status code, header list (a name may repeat; names
    and values are the header bytes decoded as Latin-1), media type
    and the chunks its body iterator yields. *)
Record response := Response {
  status_code : Z;
  headers : list (str * str);
  media_type : option str;
  body_iterator : list bytes
}.

(** [dict(request.query_params)]: the last value of a repeated name. *)
Definition dict_of_query (q : list (str * str)) : dict str :=
  fold_left (fun d kv => dict_set d (fst kv) (snd kv)) q [].

(** [key.lower()] with the interpreter's tables. *)
Definition lower_name `{Library} (k : str) : str := lower (Unicode := unicode) k.

(** [s.encode("latin-1")], kept as the text it encodes. *)
Definition encode_latin1 (s : str) : result str :=
  match latin1_error s with
  | None => Ret s
  | Some e => raise e
  end.

(** [dict(response.headers)]: for every header name in turn, the value
    of the first header stored under the lower-cased name, encoded as
    Latin-1; [KeyError(name)] when there is none, that is when the
    name is not stored in lower case. *)
Definition dict_of_headers `{Library} (h : list (str * str))
  : result (dict str) :=
  for_each
    (fun d kv =>
       k <- encode_latin1 (lower_name (fst kv)) ;;
       match dict_get h k with
       | Some v => Ret (dict_set d (fst kv) v)
       | None => raise (Exn KeyError (repr (PStr (fst kv))))
       end) h [].

(** [Response.init_headers(headers)] of Starlette, for a body that is
    given: the headers under lower-cased names, then content-length
    when it is absent and the status allows a body, then content-type
    from the media type when it is absent.  Names and values are
    encoded as Latin-1. *)
Definition init_headers `{Library} (status_code : Z) (headers : dict str)
  (media_type : option str) (body : bytes) : result (list (str * str)) :=
  raw <- for_each
           (fun raw kv =>
              k <- encode_latin1 (lower_name (fst kv)) ;;
              v <- encode_latin1 (snd kv) ;;
              Ret (raw ++ [(k, v)])) headers [] ;;
  let has k := existsb (str_eqb k) (map fst raw) in
  let raw1 :=
    if negb (has (lit "content-length"))
       && negb ((status_code <? 200) || (status_code =? 204)
                || (status_code =? 304))%Z
    then raw ++ [(lit "content-length", decimal (Z.of_nat (List.length body)))]
    else raw in
  match media_type with
  | Some content_type =>
      if negb (has (lit "content-type")) then
        v <- encode_latin1
               (if startswith content_type (lit "text/")
                   && negb (contains (lit "charset=") (lower_name content_type))
                then content_type ++ lit "; charset=utf-8"
                else content_type) ;;
        Ret (raw1 ++ [(lit "content-type", v)])
      else Ret raw1
  | None => Ret raw1
  end.

(** [Response(content=body, status_code=..., headers=..., media_type=...)] *)
Definition make_response `{Library} (body : bytes) (status_code : Z)
  (headers : dict str) (media_type : option str) : result response :=
  raw_headers <- init_headers status_code headers media_type body ;;
  Ret (Response status_code raw_headers media_type [body]).

(** A response as Starlette's own classes build it: the header names
    are in lower case, names and values are Latin-1 text and so is
    the media type when there is one. *)
Definition header_ok `{Library} (kv : str * str) : bool :=
  str_eqb (lower_name (fst kv)) (fst kv)
  && latin1_text (fst kv) && latin1_text (snd kv).

Definition well_formed `{Library} (r : response) : bool :=
  forallb header_ok (headers r)
  && match media_type r with
     | Some content_type => latin1_text content_type
     | None => true
     end.

(** The downstream application: it may raise and may change the store. *)
Definition handler := request -> io response.

(** The body the classifier is given. *)
Definition parsed_body `{Library} (req : request) : result pyval :=
  if existsb (str_eqb (method req))
       [lit "POST"; lit "PUT"; lit "PATCH"; lit "DELETE"]
  then
    match req_body req with
    | [] => Ret (PDict [])
    | body_bytes =>
        match json_loads body_bytes with
        | Ret v => Ret v
        | Raise e => if is_Exception e then Ret (PDict []) else raise e
        end
    end
  else Ret (PDict []).

(** The [except Exception as e] clause of [log_requests]. *)
Definition on_exception `{Library} (operation cmd now : str) (e : exn)
  : io response :=
  fun s =>
    if is_Exception e then
      match append_log operation cmd false (PStr (str_of_exn e)) now s with
      | (Ret _, s') => (raise e, s')
      | (Raise e', s') => (raise e', s')
      end
    else (raise e, s).

(** [log_requests(request, call_next)]; [now] is the clock reading of
    the row that gets written. *)
Definition log_requests `{Library} (req : request) (call_next : handler)
  (now : str) : io response :=
  fun s =>
    match parsed_body req with
    | Raise e => (raise e, s)
    | Ret body =>
      match get_operation_info (method req) (path req)
              (dict_of_query (query req)) body with
      | Raise e => (raise e, s)
      | Ret None => call_next req s
      | Ret (Some (operation, cmd)) =>
        match call_next req s with
        | (Raise e, s1) => on_exception operation cmd now e s1
        | (Ret resp, s1) =>
          let success := (status_code resp <? 400)%Z in
          let response_body := List.concat (body_iterator resp) in
          match extract_scoop_output response_body with
          | Raise e => on_exception operation cmd now e s1
          | Ret message =>
            match append_log operation cmd success message now s1 with
            | (Raise e, s2) => on_exception operation cmd now e s2
            | (Ret _, s2) =>
              match (copied <- dict_of_headers (headers resp) ;;
                     make_response response_body (status_code resp)
                       copied (media_type resp)) with
              | Ret r => (Ret r, s2)
              | Raise e => on_exception operation cmd now e s2
              end
            end
          end
        end
      end
    end.


End Middleware.

(** ** CommandRunner and the install handler *)

Module Runner.
Import Py Exc Parser Value.
Local Open Scope py_scope.

(** What the operating system does with the spawned process. *)
Inductive process :=
  | SpawnFailed (e : exn)
  | Exited (stdout stderr : bytes) (returncode : option Z)
  | TimedOut.

(** The argument vector [cmd] of [run_scoop_command]. *)
Definition command_line (args : list str) : str :=
  lit "scoop " ++ join (lit " ") args.

Definition cmd (args : list str) : list str :=
  [lit "powershell"; lit "-NoProfile"; lit "-Command"; command_line args].

(** [run_scoop_command(args, timeout)] when the process behaves as [p]. *)
Definition run_scoop_command `{Library} (args : list str) (p : process)
  : result (str * str * Z) :=
  match p with
  | Exited stdout stderr returncode =>
      let rc := match returncode with
                | Some z => if Z.eqb z 0 then 0%Z else z
                | None => 0%Z
                end in
      Ret (decode_ignore stdout, decode_ignore stderr, rc)
  | TimedOut => raise (HTTPException 504 (lit "Command timed out"))
  | SpawnFailed (Exn TimeoutError _) =>
      (* [proc] is unbound when [proc.kill()] runs *)
      raise (Exn UnboundLocalError (lit "cannot access local variable proc"))
  | SpawnFailed e =>
      if is_Exception e then raise (HTTPException 500 (str_of_exn e))
      else raise e
  end.

(** [APP_NAME_PATTERN] and [VERSION_PATTERN]: the class
    [a-zA-Z0-9_\-\.]. *)
Definition name_char (c : char) : bool :=
  ((97 <=? c) && (c <=? 122)) || ((65 <=? c) && (c <=? 90))
  || ((48 <=? c) && (c <=? 57)) || (c =? 95) || (c =? 45) || (c =? 46).

(** [PATTERN.match(s)] for [^[...]+$]: [$] also matches before a final
    newline. *)
Definition matches_name (s : str) : bool :=
  let core := match rev s with
              | 10 :: r => rev r
              | _ => s
              end in
  match core with
  | [] => false
  | _ => forallb name_char core
  end.

Definition validate_app_name (name : str) : result str :=
  if matches_name name then Ret name
  else raise (Exn ValueError (lit "Invalid app name: " ++ name)).

(** [ResetRequest], after validation. *)
Record ResetRequest := {
  version : option str;
  target_app : option str
}.

(** [install_target] of [install_app]. *)
Definition install_target (request : ResetRequest) (name : str) : str :=
  match version request with
  | Some ((_ :: _) as v) => name ++ lit "@" ++ v
  | _ => name
  end.

(** [install_app(request, name)] when the spawned process behaves as
    [p]: the JSON object returned, as (success, message). *)
Definition install_app `{Library} (request : ResetRequest) (name : str)
  (p : process) : result (bool * str) :=
  _ <- validate_app_name name ;;
  out <- run_scoop_command [lit "install"; install_target request name] p ;;
  let '(stdout, stderr, code) := out in
  if negb (Z.eqb code 0) then
    raise (HTTPException 400
             (match stderr with [] => lit "Failed to install app" | _ => stderr end))
  else Ret (true, stdout).

End Runner.

(** ** A library instance for the examples

    [json_loads] is given by a table of bodies with the value
    [json.loads] returns for each; any other body is rejected.  The
    decoders are exact on ASCII bytes. *)

Module Sample.
Import Py Exc Parser Value.

(** JSON text written with ['] in place of the double quote. *)
Definition json_text (s : string) : bytes :=
  map (fun c => if c =? 39 then 34 else c) (lit s).

Definition bodies : list (bytes * pyval) :=
  [ (json_text "5", PInt 5);
    (json_text "[]", PList []);
    (json_text "{}", PDict []);
    (json_text "{'message': 'ok'}", PDict [(lit "message", PStr (lit "ok"))]);
    (json_text "{'detail': 'App not found'}",
       PDict [(lit "detail", PStr (lit "App not found"))]);
    (json_text "[{'message': 'ok'}]",
       PList [PDict [(lit "message", PStr (lit "ok"))]]);
    (json_text "{'results': [{'message': 'ok'}]}",
       PDict [(lit "results", PList [PDict [(lit "message", PStr (lit "ok"))]])]);
    (json_text "{'version': '2.44.0'}",
       PDict [(lit "version", PStr (lit "2.44.0"))]);
    (json_text "{'apps': ['\ud800']}",
       PDict [(lit "apps", PList [PStr [55296]])]) ].

Fixpoint lookup_body (t : list (bytes * pyval)) (b : bytes) : option pyval :=
  match t with
  | [] => None
  | (b', v) :: t' => if str_eqb b' b then Some v else lookup_body t' b
  end.

#[export] Instance library : Library := {
  json_loads b :=
    match lookup_body bodies b with
    | Some v => Ret v
    | None => Raise (Exn JSONDecodeError (lit "Expecting value"))
    end;
  decode_replace := map (fun c => if c <? 128 then c else 65533);
  decode_ignore := filter (fun c => c <? 128);
  repr v :=
    match v with
    | PNone => lit "None"
    | PBool true => lit "True"
    | PBool false => lit "False"
    | PInt z => decimal z
    | _ => []
    end;
  real_text _ := [];
  unicode := latin1
}.

(** The line feed, and the three-line listing of the specification's
    list-parsing example. *)
Definition LF : str := [10].

(** A status text in which [foo] is named twice. *)
Definition status_text : str :=
  lit "foo 1.0 2.0" ++ LF ++ lit "bar 1 2" ++ LF ++ lit "foo 1.0 3.0".

Definition listing : str :=
  lit "Name    Version   Source   Updated" ++ LF ++
  lit "---     -------   ------   -------" ++ LF ++
  lit "git     2.44.0    main     2024-01-02 10:00".

Definition call1 : AuditLog.call :=
  AuditLog.Call (lit "op1") (lit "scoop list") true (lit "ok")
    (lit "2024-01-02T10:00:00") eq_refl.

Definition call2 : AuditLog.call :=
  AuditLog.Call (lit "op2") (lit "scoop status") false (lit "failed")
    (lit "2024-01-02T10:00:00") eq_refl.

End Sample.

(** ** Route handlers that shell out *)

Module Handlers.
Import Py Exc Parser Value Runner.
Local Open Scope py_scope.

(** [BUCKET_NAME_PATTERN]: the class [a-zA-Z0-9_\-]. *)
Definition bucket_char (c : char) : bool :=
  ((97 <=? c) && (c <=? 122)) || ((65 <=? c) && (c <=? 90))
  || ((48 <=? c) && (c <=? 57)) || (c =? 95) || (c =? 45).

Definition matches_bucket (s : str) : bool :=
  let core := match rev s with
              | 10 :: r => rev r
              | _ => s
              end in
  match core with
  | [] => false
  | _ => forallb bucket_char core
  end.

Definition validate_version (version : str) : result str :=
  if matches_name version then Ret version
  else raise (Exn ValueError (lit "Invalid version: " ++ version)).

Definition validate_bucket_name (name : str) : result str :=
  if matches_bucket name then Ret name
  else raise (Exn ValueError (lit "Invalid bucket name: " ++ name)).

(** [s or default] for two strings. *)
Definition or_else (s default : str) : str :=
  match s with [] => default | _ => s end.

(** What a handler does with the outcome of its command: a non-zero
    exit code is a 400 carrying the standard error (or [fail]). *)
Definition finish (fail : str) (out : str * str * Z) : result (bool * str) :=
  let '(stdout, stderr, code) := out in
  if negb (Z.eqb code 0) then raise (HTTPException 400 (or_else stderr fail))
  else Ret (true, stdout).

(** The argument list of the four batch handlers. *)
Definition batch_args (verb : str) (apps : list str) : list str := verb :: apps.

(** The common body of [update_apps], [uninstall_apps], [hold_apps]
    and [unhold_apps]; [apps] is [request.apps]. *)
Definition batch `{Library} (verb fail : str) (apps : list str) (p : process)
  : result (bool * str) :=
  match apps with
  | [] => raise (HTTPException 400 (lit "No apps specified"))
  | _ =>
      out <- run_scoop_command (batch_args verb apps) p ;;
      finish fail out
  end.

Definition update_apps `{Library} := batch (lit "update") (lit "Update failed").
Definition uninstall_apps `{Library} := batch (lit "uninstall") (lit "Uninstall failed").
Definition hold_apps `{Library} := batch (lit "hold") (lit "Hold failed").
Definition unhold_apps `{Library} := batch (lit "unhold") (lit "Unhold failed").

(** [hold_app(name)] and [unhold_app(name)] *)
Definition hold_app `{Library} (name : str) (p : process) : result (bool * str) :=
  _ <- validate_app_name name ;;
  out <- run_scoop_command [lit "hold"; name] p ;;
  finish (lit "Failed to hold app") out.

Definition unhold_app `{Library} (name : str) (p : process) : result (bool * str) :=
  _ <- validate_app_name name ;;
  out <- run_scoop_command [lit "unhold"; name] p ;;
  finish (lit "Failed to unhold app") out.

(** [if v:] for an optional string. *)
Definition given (v : option str) : option str :=
  match v with
  | Some (_ :: _) => v
  | _ => None
  end.

(** The argument list of [reset_app], when there is one. *)
Definition reset_args (name : str) (request : ResetRequest) : option (list str) :=
  match given (target_app request), given (version request) with
  | Some t, _ => Some [lit "reset"; t]
  | None, Some v => Some [lit "reset"; name ++ lit "@" ++ v]
  | None, None => None
  end.

(** [reset_app(name, request)] *)
Definition reset_app `{Library} (name : str) (request : ResetRequest)
  (p : process) : result (bool * str) :=
  _ <- validate_app_name name ;;
  match reset_args name request with
  | Some args =>
      out <- run_scoop_command args p ;;
      finish (lit "Failed to reset app") out
  | None =>
      raise (HTTPException 400 (lit "Either version or target_app is required"))
  end.

(** [AddBucketRequest], after validation. *)
Record AddBucketRequest := {
  bucket_name : str;
  url : option str
}.

(** [cmd_args] of [add_bucket]. *)
Definition add_bucket_args (request : AddBucketRequest) : list str :=
  [lit "bucket"; lit "add"; bucket_name request]
  ++ match given (url request) with Some u => [u] | None => [] end.

Definition add_bucket `{Library} (request : AddBucketRequest) (p : process)
  : result (bool * str) :=
  out <- run_scoop_command (add_bucket_args request) p ;;
  finish (lit "Failed to add bucket") out.

Definition remove_bucket `{Library} (name : str) (p : process)
  : result (bool * str) :=
  _ <- validate_bucket_name name ;;
  out <- run_scoop_command [lit "bucket"; lit "rm"; name] p ;;
  finish (lit "Failed to remove bucket") out.

(** [AppInfo] *)
Record AppInfo := {
  a_name : str;
  a_version : str;
  a_bucket : str;
  a_updated : option str;
  a_held : bool;
  has_update : bool;
  latest_version : option str
}.

(** The part of [get_installed_apps] that follows the two commands:
    [list_stdout] and [status_stdout] are their standard outputs. *)
Definition get_installed_apps_merge `{Unicode} (list_stdout status_stdout : str)
  : result (list AppInfo) :=
  apps <- parse_list_output list_stdout ;;
  updates <- parse_status_output status_stdout ;;
  Ret (map (fun app =>
              {| a_name := name app;
                 a_version := Parser.version app;
                 a_bucket := bucket app;
                 a_updated := updated app;
                 a_held := held app;
                 has_update := dict_mem updates (name app);
                 latest_version := dict_get updates (name app) |}) apps).

End Handlers.

(** ** Scenarios on the audit log *)

Module AuditOps.
Import Py Exc Parser Value AuditLog.

(** A use of the log: one [append_log] with a text message, or one
    [clear_logs]. *)
Inductive op :=
  | Append (c : call)
  | Clear.

(** The store after the uses [ops], in order. *)
Fixpoint run_ops `{Library} (ops : list op) (s : db) : db :=
  match ops with
  | [] => s
  | Append c :: ops' =>
      run_ops ops'
        (snd (append_log (c_operation c) (c_command c) (c_success c)
                (PStr (c_message c)) (c_now c) s))
  | Clear :: ops' => run_ops ops' (snd (clear_logs s))
  end.

(** The calls made after the last [Clear], oldest first; [acc] holds
    those seen so far. *)
Fixpoint since_clear (acc : list call) (ops : list op) : list call :=
  match ops with
  | [] => acc
  | Append c :: ops' => since_clear (acc ++ [c]) ops'
  | Clear :: ops' => since_clear [] ops'
  end.

(** The keys of the rows grow strictly along the table and none
    exceeds [seq]. *)
Fixpoint ascending (rows : list row) (seq : N) : Prop :=
  match rows with
  | [] => True
  | r :: rows' =>
      row_id r <= seq /\ Forall (fun x => row_id r < row_id x) rows'
      /\ ascending rows' seq
  end.

End AuditOps.

(** ** RelatedAppsResolver *)

Module Related.
Import Py Exc Parser Value Runner.
Local Open Scope py_scope.

(** A Python [set] of strings: its elements, each once. *)
Definition set := list str.

Definition set_mem (x : str) (s : set) : bool := existsb (str_eqb x) s.

(** [s.add(x)] *)
Definition set_add (s : set) (x : str) : set :=
  if set_mem x s then s else s ++ [x].

(** [a & b] *)
Definition set_inter (a b : set) : set := filter (fun x => set_mem x b) a.

(** What the resolver reads from the file system: [Path(p).stem.lower()]
    and, for an application and a directory relative to its [current]
    folder, the lower-cased stems of the [*.exe] files there ([None]
    when the directory does not exist). *)
Class Files := {
  stem_lower : str -> str;
  exe_stems : str -> str -> option (list str)
}.

(** [Path(v)] needs a string. *)
Definition as_path (v : pyval) : result str :=
  match v with
  | PStr s => Ret s
  | _ => raise (Exn TypeError (lit "expected str, bytes or os.PathLike object, not "
                               ++ type_name v))
  end.

(** The loop body of [extract_bin_names] for one [item] of the list. *)
Definition bin_item `{Files} (bins : set) (item : pyval) : result set :=
  match item with
  | PStr s => Ret (set_add bins (stem_lower s))
  | PList l =>
      if (2 <=? List.length l)%nat then
        alias <- index l 1 ;;
        p <- as_path alias ;;
        Ret (set_add bins (stem_lower p))
      else Ret bins
  | _ => Ret bins
  end.

(** [extract_bin_names(bin_field)] *)
Definition extract_bin_names `{Files} (bin_field : pyval) : result set :=
  if negb (truthy bin_field) then Ret []
  else
    match bin_field with
    | PStr s => Ret [stem_lower s]
    | PList l => for_each bin_item l []
    | _ => Ret []
    end.

(** The executables found under one directory of [env_add_path]. *)
Definition add_dir `{Files} (app_name : str) (bins : set) (dir : pyval)
  : result set :=
  p <- as_path dir ;;
  match exe_stems app_name p with
  | Some stems => Ret (fold_left set_add stems bins)
  | None => Ret bins
  end.

(** [get_app_executables(app_name, manifest)] *)
Definition get_app_executables `{Files} (app_name : str) (manifest : pyval)
  : result set :=
  bin_field <- get manifest (lit "bin") PNone ;;
  bins <- extract_bin_names bin_field ;;
  match bins with
  | _ :: _ => Ret bins
  | [] =>
      env_add_path <- get manifest (lit "env_add_path") PNone ;;
      if truthy env_add_path then
        match env_add_path with
        | PStr _ => add_dir app_name bins env_add_path
        | PList l => for_each (add_dir app_name) l bins
        | _ => Ret bins
        end
      else Ret bins
  end.

(** One element of the list [get_installed_apps_from_dir] returns. *)
Record installed := Installed {
  i_name : str;
  i_version : pyval;
  i_bucket : pyval;
  i_manifest : pyval
}.

Record RelatedApp := {
  r_name : str;
  r_version : str;
  r_bucket : str;
  shared_bins : list str
}.

(** A field of [RelatedApp] declared [str]: the model refuses another
    value with a validation error, a [ValueError]. *)
Definition str_field (v : pyval) : result str :=
  match v with
  | PStr s => Ret s
  | _ => raise (Exn ValueError (lit "Input should be a valid string"))
  end.

(** The loop body of [get_related_apps]. *)
Definition related_step `{Unicode} `{Files} (name : str) (target_bins : set)
  (related : list RelatedApp) (app : installed) : result (list RelatedApp) :=
  let app_name := i_name app in
  if str_eqb (lower app_name) (lower name) then Ret related
  else if negb (truthy (i_manifest app)) then Ret related
  else
    app_bins <- get_app_executables app_name (i_manifest app) ;;
    let shared := set_inter target_bins app_bins in
    match shared with
    | [] => Ret related
    | _ =>
        version <- str_field (i_version app) ;;
        bucket <- str_field (i_bucket app) ;;
        Ret (related ++ [{| r_name := app_name; r_version := version;
                            r_bucket := bucket; shared_bins := shared |}])
    end.

(** [get_related_apps(name)]; [read_manifest_file] and
    [installed_apps] stand for what the two directory readers return. *)
Definition get_related_apps `{Unicode} `{Files}
  (read_manifest_file : str -> option pyval) (installed_apps : list installed)
  (name : str) : result (list RelatedApp) :=
  _ <- validate_app_name name ;;
  match read_manifest_file name with
  | None => Ret []
  | Some target_manifest =>
      if negb (truthy target_manifest) then Ret []
      else
        target_bins <- get_app_executables name target_manifest ;;
        match target_bins with
        | [] => Ret []
        | _ => for_each (related_step name target_bins) installed_apps []
        end
  end.

End Related.

(** ** Where parsed records come from *)

Module Provenance.
Import Py Exc Parser.

(** What a record of the installed-application list says about the
    line it comes from. *)
Definition from_line (r : app_row) (line : str) : Prop :=
  exists parts,
    split (strip line) = name r :: version r :: parts /\
    bucket r = match parts with b :: _ => b | [] => lit "main" end /\
    updated r = match parts with
                | _ :: u1 :: u2 :: _ => Some (u1 ++ lit " " ++ u2)
                | [_; u1] => Some u1
                | _ => None
                end /\
    held r = contains (lit "Held") (strip line).

End Provenance.

(** ** Request bodies as the classifier sees them *)

Module Bodies.
Import Py Exc Parser Value Runner.

(** An optional string field of a JSON body: the string, or [null]. *)
Definition opt_str (v : option str) : pyval :=
  match v with
  | Some s => PStr s
  | None => PNone
  end.

(** The body [d] carries the fields of the validated [ResetRequest]
    (a field that is [None] is absent or [null]). *)
Definition carries_reset (d : list (str * pyval)) (r : ResetRequest) : Prop :=
  get (PDict d) (lit "version") PNone = Ret (opt_str (version r)) /\
  get (PDict d) (lit "target_app") PNone = Ret (opt_str (target_app r)).

(** The process exited with code 0 and [r] is the success payload
    carrying its decoded standard output. *)
Definition exit_zero `{Library} (p : process) (r : bool * str) : Prop :=
  exists stdout stderr returncode,
    p = Exited stdout stderr returncode /\
    (returncode = Some 0%Z \/ returncode = None) /\
    r = (true, decode_ignore stdout).

(** [v] is not a string, a list or a mapping. *)
Definition scalar (v : pyval) : bool :=
  match v with
  | PNone | PBool _ | PInt _ | PFloat _ => true
  | _ => false
  end.

(** The path of a per-application route, /api/apps/<name>/<suffix>. *)
Definition route (name suffix : str) : str :=
  lit "/api/apps/" ++ name ++ 47 :: suffix.

End Bodies.

(** ** A file system for the examples of the resolver

    Paths in the examples are bare lower-case names, which are their
    own stems, and no [env_add_path] directory exists. *)

Module SampleFiles.
Import Py Exc Parser Value Related.

#[export] Instance files : Files := {
  stem_lower s := s;
  exe_stems _ _ := None
}.

Definition python_manifest : pyval :=
  PDict [(lit "version", PStr (lit "3.12.0")); (lit "bin", PStr (lit "python"))].

Definition python311 : installed :=
  Installed (lit "python311") (PStr (lit "3.11.9")) (PStr (lit "versions"))
    (PDict [(lit "bin", PList [PStr (lit "python"); PStr (lit "pip")])]).

Definition git : installed :=
  Installed (lit "git") (PStr (lit "2.44.0")) (PStr (lit "main"))
    (PDict [(lit "bin", PList [PStr (lit "git")])]).

Definition python_self : installed :=
  Installed (lit "Python") (PStr (lit "3.12.0")) (PStr (lit "main")) python_manifest.

(** [read_manifest_file] on a disk that holds the manifest of python. *)
Definition read_manifest (name : str) : option pyval :=
  if str_eqb name (lit "python") then Some python_manifest else None.

End SampleFiles.

(** ** The status rows of the specification *)

(** The rows of a status text that count, in the words of the
    specification: not blank, not a warning line, not the header or
    the separator line, no "held" marker in any case, and at least
    three tokens.  It is compared below with the test the code
    applies, [Parser.status_skipped]. *)
Module Stated.
Import Py Parser.

(** A warning line starts with "WARN". *)
Definition warning_line (row : str) : bool := startswith row (lit "WARN").

(** The header line names its first column "Name". *)
Definition header_line (row : str) : bool :=
  match split row with
  | first :: _ => str_eqb first (lit "Name")
  | [] => false
  end.

(** The separator line is made of dashes. *)
Definition separator_line (row : str) : bool := startswith row (lit "-").

Definition qualifying_row `{Unicode} (row : str) : bool :=
  let row := strip row in
  negb (match row with [] => true | _ => false end)
  && negb (warning_line row)
  && negb (header_line row)
  && negb (separator_line row)
  && negb (contains (lit "held") (lower row))
  && (3 <=? List.length (split row))%nat.

End Stated.

(** * Properties *)

(** ** OutputParser *)

Module ParserFacts.
Import Py Exc Parser.
Local Open Scope py_scope.

Lemma str_eqb_eq (a b : str) : str_eqb a b = true <-> a = b.
Proof.
  revert b; induction a as [|x a IH]; intros [|y b]; simpl;
    try (split; [discriminate | intros [=]]); try tauto.
  rewrite andb_true_iff, N.eqb_eq, IH. split.
  - intros [-> ->]; reflexivity.
  - intros [= -> ->]; auto.
Qed.

Lemma str_eqb_refl (a : str) : str_eqb a a = true.
Proof. apply str_eqb_eq; reflexivity. Qed.

Lemma str_eqb_neq (a b : str) : str_eqb a b = false <-> a <> b.
Proof.
  rewrite <- str_eqb_eq. destruct (str_eqb a b); split; congruence.
Qed.

Lemma for_each_total {S A} (body : S -> A -> result S) :
  (forall s x, exists s', body s x = Ret s') ->
  forall l s, exists s', for_each body l s = Ret s'.
Proof.
  intros Hb l; induction l as [|x l IH]; intros s; simpl.
  - eauto.
  - destruct (Hb s x) as [s' ->]; simpl. apply IH.
Qed.

(** One iteration of the loop of [parse_list_output] never raises. *)
Lemma parse_list_line_total (apps : list app_row) (line : str) :
  exists apps', parse_list_line apps line = Ret apps'.
Proof.
  unfold parse_list_line.
  destruct (_ || _); [eauto|].
  destruct (split (strip line)) as [|a [|b [|c [|d [|e r]]]]]; simpl; eauto.
Qed.

(** [parse_list_output] returns a list for every text. *)
Lemma parse_list_output_total (output : str) :
  exists apps, parse_list_output output = Ret apps.
Proof. apply for_each_total, parse_list_line_total. Qed.

Lemma parse_status_line_total `{Unicode} (updates : dict str) (line : str) :
  exists updates', parse_status_line updates line = Ret updates'.
Proof.
  unfold parse_status_line.
  destruct (status_skipped _); [eauto|].
  destruct (split (strip line)) as [|a [|b [|c r]]]; simpl; eauto.
Qed.

(** [parse_status_output] returns a mapping for every text. *)
Lemma parse_status_output_total `{Unicode} (output : str) :
  exists updates, parse_status_output output = Ret updates.
Proof. apply for_each_total, parse_status_line_total. Qed.

Lemma split_on_nonempty (c : char) (s : str) :
  exists w ws, split_on c s = w :: ws.
Proof.
  induction s as [|x s (w & ws & IH)]; simpl; [eauto|].
  destruct (x =? c); [eauto|]. rewrite IH. eauto.
Qed.

Lemma startswith_nil (s : str) : startswith s [] = true.
Proof. destruct s; reflexivity. Qed.

(** A string in which [c] occurs splits into at least two parts. *)
Lemma split_on_two (c : char) (s : str) :
  contains [c] s = true -> exists a b rest, split_on c s = a :: b :: rest.
Proof.
  induction s as [|x s IH]; simpl; [discriminate|].
  rewrite startswith_nil, andb_true_r, (N.eqb_sym c x).
  destruct (x =? c) eqn:E; simpl.
  - intros _. destruct (split_on_nonempty c s) as (w & ws & ->). eauto.
  - intros Hc. destruct (IH Hc) as (a & b & rest & ->). eauto.
Qed.

Lemma grouped_line_total `{Unicode} (keep : str -> bool)
  (st : str * list version_info) (line : str) :
  exists st', grouped_line keep st line = Ret st'.
Proof.
  unfold grouped_line. destruct st as [current_bucket versions].
  destruct (strip line) as [|c l] eqn:El; [eauto|].
  destruct (_ && _).
  - destruct (contains (lit "'") (c :: l)) eqn:Ec; [|eauto].
    destruct (split_on_two 39 (c :: l) Ec) as (a & b & rest & ->).
    simpl. eauto.
  - destruct (startswith _ _); [eauto|].
    destruct (match_name_version _) as [[app_name version]|]; [|eauto].
    destruct (keep app_name); eauto.
Qed.

Lemma tabular_line_total (skip keep : str -> bool)
  (versions : list version_info) (line : str) :
  exists versions', tabular_line skip keep versions line = Ret versions'.
Proof.
  unfold tabular_line.
  destruct (_ || _); [eauto|].
  destruct (split (strip line)) as [|a [|b [|c r]]]; simpl; eauto.
  destruct (keep a); eauto.
Qed.

(** The version listing and the search listing are parsed without an
    exception, in both textual shapes. *)
Lemma get_available_versions_parse_total `{Unicode}
  (use_scoop_search : bool) (name output : str) :
  exists versions,
    get_available_versions_parse use_scoop_search name output = Ret versions.
Proof.
  unfold get_available_versions_parse. destruct use_scoop_search.
  - edestruct (for_each_total (grouped_line (fun a => same_app a name)))
      as [st ->]; [apply grouped_line_total|]. simpl. eauto.
  - apply for_each_total, tabular_line_total.
Qed.

Lemma search_apps_parse_total `{Unicode}
  (use_scoop_search : bool) (output : str) :
  exists results, search_apps_parse use_scoop_search output = Ret results.
Proof.
  unfold search_apps_parse. destruct use_scoop_search.
  - edestruct (for_each_total (grouped_line (fun _ => true)))
      as [st ->]; [apply grouped_line_total|]. simpl. eauto.
  - apply for_each_total, tabular_line_total.
Qed.

(** C1, at the input where it fails.  The bucket listing
    [main https://x 2024-01-02 10:00 <U+00B2>] has a fifth token for
    which [isdigit] holds (SUPERSCRIPT TWO is a digit) and which
    [int] refuses: the parsing loop of [get_buckets] raises
    [ValueError] instead of returning a list. *)
Theorem get_buckets_parse_raises :
  isdigit [178] = true /\
  get_buckets_parse (lit "main https://x 2024-01-02 10:00 " ++ [178])
  = Raise (Exn ValueError
             (lit "invalid literal for int() with base 10: '" ++ [178] ++ lit "'")).
Proof. split; vm_compute; reflexivity. Qed.

(** C8: the three-line listing of the specification yields exactly one
    record: git, 2.44.0, main, "2024-01-02 10:00", not held. *)
Theorem parse_list_output_example :
  parse_list_output Sample.listing
  = Ret [ AppRow (lit "git") (lit "2.44.0") (lit "main")
                 (Some (lit "2024-01-02 10:00")) false ].
Proof. vm_compute. reflexivity. Qed.

Lemma parse_status_line_item `{Unicode} (updates : dict str) (line : str) :
  parse_status_line updates line
  = Ret (match status_item line with
         | Some (k, v) => dict_set updates k v
         | None => updates
         end).
Proof.
  unfold parse_status_line, status_item.
  destruct (status_skipped _); [reflexivity|].
  destruct (split (strip line)) as [|a [|b [|c r]]]; reflexivity.
Qed.

Lemma for_each_status `{Unicode} (l : list str) (d : dict str) :
  for_each parse_status_line l d = Ret (fold_left status_step l d).
Proof.
  revert d; induction l as [|x l IH]; intros d; simpl; [reflexivity|].
  rewrite parse_status_line_item; simpl. apply IH.
Qed.

Section Dict.
Context {V : Type}.
Implicit Types (d : dict V) (k : str) (v : V).

Lemma dict_get_set_same d k v : dict_get (dict_set d k v) k = Some v.
Proof.
  induction d as [|[k' v'] d IH]; simpl.
  - now rewrite str_eqb_refl.
  - destruct (str_eqb k' k) eqn:E; simpl; rewrite E; auto.
Qed.

Lemma dict_get_set_other d k k' v :
  k <> k' -> dict_get (dict_set d k v) k' = dict_get d k'.
Proof.
  intros Hne. induction d as [|[k0 v0] d IH]; simpl.
  - apply str_eqb_neq in Hne. now rewrite Hne.
  - destruct (str_eqb k0 k) eqn:E; simpl.
    + apply str_eqb_eq in E; subst k0.
      apply str_eqb_neq in Hne. now rewrite Hne.
    + now rewrite IH.
Qed.

Lemma dict_get_None_keys d k : dict_get d k = None <-> ~ In k (map fst d).
Proof.
  induction d as [|[k0 v0] d IH]; simpl; [tauto|].
  destruct (str_eqb k0 k) eqn:E.
  - apply str_eqb_eq in E. split; [discriminate | tauto].
  - apply str_eqb_neq in E. rewrite IH. tauto.
Qed.

Lemma dict_set_keys d k v :
  map fst (dict_set d k v)
  = if dict_mem d k then map fst d else map fst d ++ [k].
Proof.
  unfold dict_mem. induction d as [|[k0 v0] d IH]; simpl; [reflexivity|].
  destruct (str_eqb k0 k) eqn:E; simpl; [reflexivity|].
  rewrite IH. now destruct (dict_get d k).
Qed.

Lemma dict_set_NoDup d k v :
  NoDup (map fst d) -> NoDup (map fst (dict_set d k v)).
Proof.
  intros Hd. rewrite dict_set_keys. unfold dict_mem.
  destruct (dict_get d k) eqn:E; [assumption|].
  apply dict_get_None_keys in E.
  apply NoDup_app; [assumption | repeat constructor; simpl; tauto |].
  intros x Hx [<-|[]]. contradiction.
Qed.

Lemma count_key_absent d k : ~ In k (map fst d) -> count_key d k = 0%nat.
Proof.
  unfold count_key. induction d as [|[k0 v0] d IH]; simpl; [reflexivity|].
  intros Hn. destruct (str_eqb k0 k) eqn:E.
  - apply str_eqb_eq in E. tauto.
  - apply IH. tauto.
Qed.

Lemma count_key_one d k v :
  NoDup (map fst d) -> dict_get d k = Some v -> count_key d k = 1%nat.
Proof.
  unfold count_key. induction d as [|[k0 v0] d IH]; simpl; [discriminate|].
  intros Hd Hg. inversion Hd as [|? ? Hn Hd']; subst.
  destruct (str_eqb k0 k) eqn:E; simpl.
  - apply str_eqb_eq in E; subst.
    f_equal. now apply count_key_absent.
  - now apply IH.
Qed.

End Dict.

Lemma status_fold_NoDup `{Unicode} (l : list str) (d : dict str) :
  NoDup (map fst d) -> NoDup (map fst (fold_left status_step l d)).
Proof.
  revert d; induction l as [|x l IH]; intros d Hd; simpl; [assumption|].
  apply IH. unfold status_step.
  destruct (status_item x) as [[k v]|]; [now apply dict_set_NoDup | assumption].
Qed.

Lemma status_fold_keeps `{Unicode} (l : list str) (d : dict str) (name : str) :
  (forall r v, In r l -> status_item r <> Some (name, v)) ->
  dict_get (fold_left status_step l d) name = dict_get d name.
Proof.
  revert d; induction l as [|x l IH]; intros d Hl; simpl; [reflexivity|].
  rewrite IH by (intros r v Hr; apply Hl; now right).
  unfold status_step.
  destruct (status_item x) as [[k v]|] eqn:E; [|reflexivity].
  apply dict_get_set_other. intros ->.
  apply (Hl x v); [now left | assumption].
Qed.

(** C7, amended: a row of the status text that is not skipped by
    the code's own test (not blank, no "WARN" and no "Name" anywhere
    in it, no leading "-", no "held" in its lower-cased text) and has
    at least three tokens maps its first token to its third, provided
    no later such row names the same application; the mapping then
    holds exactly one item for that name.  So of two such rows naming
    the same application the later one decides the value. *)
Theorem parse_status_output_last_wins `{Unicode}
  (output : str) (before after : list str) (row name mid latest : str)
  (rest : list str) :
  split_on 10 (strip output) = before ++ row :: after ->
  status_skipped (strip row) = false ->
  split (strip row) = name :: mid :: latest :: rest ->
  (forall r v, In r after -> status_item r <> Some (name, v)) ->
  exists updates,
    parse_status_output output = Ret updates /\
    dict_get updates name = Some latest /\
    count_key updates name = 1%nat.
Proof.
  intros Hlines Hskip Htok Hafter.
  unfold parse_status_output. rewrite Hlines, for_each_status.
  eexists; split; [reflexivity|].
  assert (Hitem : status_item row = Some (name, latest)).
  { unfold status_item. now rewrite Hskip, Htok. }
  assert (Hnd : NoDup (map fst
            (fold_left status_step (before ++ row :: after) []))).
  { apply status_fold_NoDup. constructor. }
  assert (Hget : dict_get
            (fold_left status_step (before ++ row :: after) []) name
          = Some latest).
  { rewrite fold_left_app; simpl.
    rewrite status_fold_keeps by assumption.
    unfold status_step at 1. rewrite Hitem. apply dict_get_set_same. }
  split; [assumption|].
  eapply count_key_one; eassumption.
Qed.

Example parse_status_output_last_wins_witness :
  exists updates,
    parse_status_output Sample.status_text = Ret updates /\
    dict_get updates (lit "foo") = Some (lit "3.0") /\
    count_key updates (lit "foo") = 1%nat.
Proof.
  apply (@parse_status_output_last_wins latin1 Sample.status_text
           [lit "foo 1.0 2.0"; lit "bar 1 2"] []
           (lit "foo 1.0 3.0") (lit "foo") (lit "1.0") (lit "3.0") []).
  - vm_compute; reflexivity.
  - vm_compute; reflexivity.
  - vm_compute; reflexivity.
  - intros r v [].
Defined.

(** C7 as stated fails on a row that merely contains "Name": the row
    "NameTool 1.0 2.0" is no blank, warning, header or separator
    line, has no "held" marker and has three tokens, yet the code
    skips it and the mapping has no item for NameTool. *)
Lemma parse_status_output_name_counterexample :
  Stated.qualifying_row (lit "NameTool 1.0 2.0") = true /\
  split (strip (lit "NameTool 1.0 2.0"))
  = [lit "NameTool"; lit "1.0"; lit "2.0"] /\
  parse_status_output (lit "NameTool 1.0 2.0") = Ret [] /\
  status_skipped (strip (lit "NameTool 1.0 2.0")) = true.
Proof. repeat split. Qed.

End ParserFacts.

(** ** AuditLog *)

Module AuditLogFacts.
Import Py Exc Parser Value AuditLog.
Local Open Scope py_scope.

Section Store.
Context `{Library}.

Lemma bind_text_encodable (s : str) : encodable s = true -> bind_text s = Ret s.
Proof. unfold encodable, bind_text. now destruct (utf8_error s). Qed.

Lemma stored_message_text (m : str) :
  encodable m = true -> stored_message (PStr m) = Ret m.
Proof.
  intros Hm. unfold stored_message. destruct m; [reflexivity|].
  cbn [truthy negb]. now apply (@bind_text_encodable (c :: m)).
Qed.

Lemma append_log_text (operation command : str) (success : bool)
  (m now : str) (rows : list row) (seq : N) :
  encodable operation = true -> encodable command = true ->
  encodable m = true ->
  append_log operation command success (PStr m) now (Logs rows seq)
  = (Ret tt,
     Logs (rows ++ [Row (seq + 1) now operation command
                        (if success then 1 else 0)%Z m]) (seq + 1)).
Proof.
  intros Ho Hc Hm. unfold append_log.
  rewrite (@bind_text_encodable operation Ho), (@bind_text_encodable command Hc).
  cbn [bind]. now rewrite (@stored_message_text m Hm).
Qed.

(** The texts of an appended entry can be bound. *)
Lemma call_bound (c : call) :
  encodable (c_operation c) = true /\ encodable (c_command c) = true
  /\ encodable (c_message c) = true.
Proof.
  pose proof (c_bound c) as Hb.
  apply andb_true_iff in Hb as [Hb Hm]. apply andb_true_iff in Hb as [Ho Hc].
  auto.
Qed.

(** Appending never fails on a store that holds the table, and adds
    the rows with the next keys, in order. *)
Lemma append_all_rows (cs : list call) (rows : list row) (seq : N) :
  append_all cs (Logs rows seq)
  = (Ret tt, Logs (rows ++ rows_from seq cs) (seq + N.of_nat (List.length cs))).
Proof.
  revert rows seq; induction cs as [|c cs IH]; intros rows seq.
  - simpl. now rewrite app_nil_r, N.add_0_r.
  - destruct (call_bound c) as (Ho & Hc & Hm).
    cbn [append_all].
    rewrite (@append_log_text (c_operation c) (c_command c) (c_success c)
               (c_message c) (c_now c) rows seq Ho Hc Hm), IH.
    cbn [rows_from].
    rewrite <- app_assoc. simpl app.
    cbn [List.length]. rewrite Nat2N.inj_succ.
    replace (seq + 1 + N.of_nat (List.length cs))
      with (seq + N.succ (N.of_nat (List.length cs))) by lia.
    reflexivity.
Qed.

Lemma rows_from_above (seq : N) (cs : list call) :
  Forall (fun r => seq < row_id r) (rows_from seq cs).
Proof.
  revert seq; induction cs as [|c cs IH]; intros seq; cbn [rows_from];
    constructor.
  - cbn [row_id]. lia.
  - eapply Forall_impl; [|apply IH]. cbn beta. intros r Hr. lia.
Qed.

Lemma insert_desc_last (r : row) (l : list row) :
  Forall (fun x => row_id r < row_id x) l -> insert_desc r l = l ++ [r].
Proof.
  induction 1 as [|x l Hx Hl IH]; simpl; [reflexivity|].
  destruct (row_id x <=? row_id r) eqn:E.
  - apply N.leb_le in E. lia.
  - now rewrite IH.
Qed.

Lemma Forall_rev_iff {A} (P : A -> Prop) (l : list A) :
  Forall P l -> Forall P (rev l).
Proof. intros Hl. apply Forall_forall. intros x Hx.
  rewrite <- in_rev in Hx. revert x Hx. now apply Forall_forall. Qed.

(** Rows written by successive appends come back, under
    [ORDER BY id DESC], in the reverse of the order of writing. *)
Lemma order_rows_from (seq : N) (cs : list call) :
  order_by_id_desc (rows_from seq cs) = rev (rows_from seq cs).
Proof.
  revert seq; induction cs as [|c cs IH]; intros seq; [reflexivity|].
  cbn [rows_from order_by_id_desc]. rewrite IH.
  rewrite insert_desc_last; [reflexivity|].
  apply Forall_rev_iff. apply rows_from_above.
Qed.

Lemma entries_rows_from (seq : N) (cs : list call) :
  map entry_of_row (rows_from seq cs) = map entry_of_call cs.
Proof.
  revert seq; induction cs as [|c cs IH]; intros seq; [reflexivity|].
  cbn [rows_from map]. rewrite IH. f_equal.
  unfold entry_of_row, entry_of_call; simpl. now destruct (c_success c).
Qed.

(** Reading a store filled by [cs], for a limit the driver accepts. *)
Lemma read_after_appends (cs : list call) (seq : N) (limit : Z) :
  int64 limit = true ->
  fst (read_logs limit (snd (append_all cs (Logs [] seq))))
  = Ret (sql_limit limit (rev (map entry_of_call cs))).
Proof.
  intros Hl. rewrite append_all_rows. cbn [snd app read_logs].
  rewrite Hl. cbn [fst]. f_equal.
  rewrite order_rows_from. unfold sql_limit.
  destruct (limit <? 0)%Z.
  - now rewrite map_rev, entries_rows_from.
  - now rewrite <- firstn_map, map_rev, entries_rows_from.
Qed.

(** C2, amended: for a limit [0 <= M < 2^63], appending the [N] calls
    [cs] to an empty table (fresh or cleared) succeeds and reading with
    limit [M] returns the first [M] of the appended entries taken in
    reverse order of insertion, [min N M] of them; after a clear,
    reading with any limit the driver accepts returns the empty list.
    A [call] holds texts that the driver can bind, that is texts
    without a lone surrogate. *)
Theorem read_logs_round_trip (cs : list call) (seq : N) (M : Z) :
  (0 <= M < 2 ^ 63)%Z ->
  let s := snd (append_all cs (Logs [] seq)) in
  fst (append_all cs (Logs [] seq)) = Ret tt /\
  (exists es,
     fst (read_logs M s) = Ret es /\
     es = firstn (Z.to_nat M) (rev (map entry_of_call cs)) /\
     List.length es = Nat.min (List.length cs) (Z.to_nat M)) /\
  (forall M', int64 M' = true ->
     fst (read_logs M' (snd (clear_logs s))) = Ret []).
Proof.
  intros HM s. split; [|split].
  - now rewrite append_all_rows.
  - eexists; split; [|split; [reflexivity|]].
    + subst s. rewrite read_after_appends.
      * unfold sql_limit. replace (M <? 0)%Z with false; [reflexivity|].
        symmetry. apply Z.ltb_ge. lia.
      * unfold int64. apply andb_true_iff. split.
        -- apply Z.leb_le. lia.
        -- apply Z.ltb_lt. lia.
    + rewrite length_firstn, length_rev, length_map. lia.
  - intros M' HM'. subst s. rewrite append_all_rows. cbn [snd clear_logs].
    cbn [read_logs]. rewrite HM'. cbn [fst order_by_id_desc].
    unfold sql_limit. destruct (M' <? 0)%Z; [reflexivity|].
    now rewrite firstn_nil.
Qed.

(** C10, amended: on a store filled by [cs], a limit of 0 returns the
    empty list and a negative limit down to [-2^63] returns every
    stored entry, most recent first; so does [get_logs(-1)]. *)
Theorem read_logs_non_positive_limit (cs : list call) (seq : N) (limit : Z) :
  (- 2 ^ 63 <= limit <= 0)%Z ->
  let s := snd (append_all cs (Logs [] seq)) in
  fst (read_logs limit s)
  = Ret (if (limit =? 0)%Z then [] else rev (map entry_of_call cs)) /\
  fst (get_logs (-1) s) = Ret (rev (map entry_of_call cs)).
Proof.
  intros Hl s. subst s. split.
  - rewrite read_after_appends.
    + unfold sql_limit. destruct (limit =? 0)%Z eqn:E.
      * apply Z.eqb_eq in E; subst. reflexivity.
      * apply Z.eqb_neq in E.
        replace (limit <? 0)%Z with true; [reflexivity|].
        symmetry. apply Z.ltb_lt. lia.
    + unfold int64. apply andb_true_iff. split.
      * apply Z.leb_le. lia.
      * apply Z.ltb_lt. lia.
  - unfold get_logs. now rewrite read_after_appends.
Qed.

End Store.

(** C2 as stated fails for a negative limit: one entry is appended and
    read with limit -1; one entry comes back, not [min 1 (-1)]. *)
Lemma read_logs_min_counterexample :
  ~ (forall (cs : list call) (M : Z),
       exists es,
         fst (read_logs M (snd (append_all (H := Sample.library) cs (Logs [] 0))))
         = Ret es /\
         Z.of_nat (List.length es) = Z.min (Z.of_nat (List.length cs)) M).
Proof.
  intros Hc. destruct (Hc [Sample.call1] (-1)%Z) as (es & Hr & Hn).
  vm_compute in Hr. injection Hr as <-. vm_compute in Hn. discriminate.
Qed.

Example read_logs_round_trip_witness :
  (0 <= 1 < 2 ^ 63)%Z /\
  fst (read_logs 1
         (snd (append_all (H := Sample.library)
                 [Sample.call1; Sample.call2] (Logs [] 0))))
  = Ret [entry_of_call Sample.call2].
Proof.
  assert (Hb : (0 <= 1 < 2 ^ 63)%Z) by (split; [lia | reflexivity]).
  split; [exact Hb|].
  destruct (read_logs_round_trip (H := Sample.library)
              [Sample.call1; Sample.call2] 0 Hb) as (_ & (es & Hr & He & _) & _).
  rewrite Hr, He. reflexivity.
Defined.

(** C10 as stated fails below [-2^63]: the driver raises
    [OverflowError] instead of returning the stored entry. *)
Lemma read_logs_below_int64_counterexample :
  fst (read_logs (- 2 ^ 63 - 1)
         (snd (append_all (H := Sample.library) [Sample.call1] (Logs [] 0))))
  = Raise (Exn OverflowError
             (lit "Python int too large to convert to SQLite INTEGER")) /\
  fst (read_logs (- 2 ^ 63 - 1)
         (snd (append_all (H := Sample.library) [Sample.call1] (Logs [] 0))))
  <> Ret [entry_of_call Sample.call1].
Proof. split; [vm_compute; reflexivity | vm_compute; discriminate]. Qed.

Example read_logs_non_positive_limit_witness :
  (- 2 ^ 63 <= -1 <= 0)%Z /\
  fst (get_logs (-1)
         (snd (append_all (H := Sample.library)
                 [Sample.call1; Sample.call2] (Logs [] 0))))
  = Ret [entry_of_call Sample.call2; entry_of_call Sample.call1].
Proof.
  assert (Hb : (- 2 ^ 63 <= -1 <= 0)%Z)
    by (split; [vm_compute; discriminate | lia]).
  split; [exact Hb|].
  exact (proj2 (read_logs_non_positive_limit (H := Sample.library)
                  [Sample.call1; Sample.call2] 0 Hb)).
Defined.

End AuditLogFacts.

(** ** AuditMiddleware *)

Module MiddlewareFacts.
Import Py Exc Parser Value Classifier AuditLog Middleware.
Import ParserFacts AuditLogFacts.
Local Open Scope py_scope.

Section Extract.
Context `{Library}.

Lemma nonempty_cases {A} (l : list A) : l <> [] -> exists x l', l = x :: l'.
Proof. destruct l; [congruence | eauto]. Qed.

(** [extract_scoop_output] on a body that decodes to a mapping. *)
Lemma extract_mapping (body : bytes) (d : list (str * pyval)) :
  body <> [] ->
  json_loads body = Ret (PDict d) ->
  extract_scoop_output body
  = match dict_get d (lit "message") with
    | Some m => Ret m
    | None =>
      match dict_get d (lit "detail") with
      | Some m => Ret m
      | None =>
        match dict_get d (lit "results") with
        | Some (PList (first :: _)) => get first (lit "message") (PStr [])
        | _ => Ret (PStr [])
        end
      end
    end.
Proof.
  intros Hne Hl. destruct (nonempty_cases Hne) as (x & l' & ->).
  unfold extract_scoop_output. rewrite Hl.
  cbn [py_in bind getitem]. unfold dict_mem.
  destruct (dict_get d (lit "message")) as [m|]; [reflexivity|].
  destruct (dict_get d (lit "detail")) as [m|]; [reflexivity|].
  destruct (dict_get d (lit "results")) as [r|]; [|reflexivity].
  cbn [bind]. destruct r as [| | | | |l|]; try reflexivity.
  destruct l; reflexivity.
Qed.

(** C5, amended: for a non-empty body that [json.loads] decodes to a
    mapping, the message is the value of "message"; else the value of
    "detail"; else, when "results" holds a non-empty list whose first
    element is a mapping, that element's "message" or the empty text
    when it has none; else, when "results" is absent or holds
    anything but a non-empty list, the empty text.  When [json.loads]
    raises [JSONDecodeError] or [TypeError] the message is the body
    decoded as UTF-8 text with replacement characters.  A non-empty
    "results" list whose first element is not a mapping, and a body
    that decodes to something that is not a mapping, are left out. *)
Theorem extract_scoop_output_order (body : bytes) :
  body <> [] ->
  (forall d m,
     json_loads body = Ret (PDict d) ->
     dict_get d (lit "message") = Some m ->
     extract_scoop_output body = Ret m) /\
  (forall d m,
     json_loads body = Ret (PDict d) ->
     dict_get d (lit "message") = None ->
     dict_get d (lit "detail") = Some m ->
     extract_scoop_output body = Ret m) /\
  (forall d first rest,
     json_loads body = Ret (PDict d) ->
     dict_get d (lit "message") = None ->
     dict_get d (lit "detail") = None ->
     dict_get d (lit "results") = Some (PList (PDict first :: rest)) ->
     extract_scoop_output body
     = Ret (match dict_get first (lit "message") with
            | Some m => m
            | None => PStr []
            end)) /\
  (forall d,
     json_loads body = Ret (PDict d) ->
     dict_get d (lit "message") = None ->
     dict_get d (lit "detail") = None ->
     (forall first rest,
        dict_get d (lit "results") <> Some (PList (first :: rest))) ->
     extract_scoop_output body = Ret (PStr [])) /\
  (forall c msg,
     json_loads body = Raise (Exn c msg) ->
     c = JSONDecodeError \/ c = TypeError ->
     extract_scoop_output body = Ret (PStr (decode_replace body))).
Proof.
  intros Hne. repeat split.
  - intros d m Hl Hm. now rewrite (extract_mapping Hne Hl), Hm.
  - intros d m Hl Hm Hd. now rewrite (extract_mapping Hne Hl), Hm, Hd.
  - intros d first rest Hl Hm Hd Hr.
    rewrite (extract_mapping Hne Hl), Hm, Hd, Hr. cbn [get].
    now destruct (dict_get first (lit "message")).
  - intros d Hl Hm Hd Hr. rewrite (extract_mapping Hne Hl), Hm, Hd.
    destruct (dict_get d (lit "results")) as [[| | | | |[|first rest]|]|];
      try reflexivity.
    now contradiction (Hr first rest).
  - intros c msg Hl Hc. destruct (nonempty_cases Hne) as (x & l' & ->).
    unfold extract_scoop_output. rewrite Hl.
    now destruct Hc as [-> | ->].
Qed.

(** The labels the classifier hands out. *)
Lemma map_lookup_label (method path : str) (op cmd : str) :
  map_lookup OPERATION_MAP method path = Some (Some (op, cmd)) ->
  In op labels.
Proof.
  unfold OPERATION_MAP, map_lookup.
  repeat match goal with
    | |- context [if ?c then _ else _] => destruct c
    end; intros E; try discriminate E; injection E as <- _;
    repeat (first [left; reflexivity | right]).
Qed.

Lemma classified_label (method path : str) (q : dict str) (body : pyval)
  (op cmd : str) :
  get_operation_info method path q body = Ret (Some (op, cmd)) ->
  In op labels.
Proof.
  unfold get_operation_info.
  destruct (map_lookup OPERATION_MAP method path) as [[[o c]|]|] eqn:El.
  - intros [= <- <-]. exact (@map_lookup_label _ _ _ _ El).
  - discriminate.
  - clear El. unfold bind. cbv zeta. intros E.
    repeat (match type of E with
            | (match ?x with _ => _ end) = _ => destruct x
            end; cbv beta iota in E);
      try discriminate E; injection E as <- _;
      repeat (first [left; reflexivity | right]).
Qed.

Lemma labels_encodable (op : str) : In op labels -> encodable op = true.
Proof.
  unfold labels. intros Ho.
  repeat (destruct Ho as [<- | Ho]; [reflexivity|]). destruct Ho.
Qed.

(** The label of a classified request can always be stored. *)
Lemma classified_encodable (method path : str) (q : dict str) (body : pyval)
  (op cmd : str) :
  get_operation_info method path q body = Ret (Some (op, cmd)) ->
  encodable op = true.
Proof.
  intros Hi. apply labels_encodable. exact (@classified_label _ _ _ _ _ _ Hi).
Qed.

(** The failure row of the [except] clause, when its texts can be
    stored. *)
Lemma on_exception_row (operation cmd now : str) (e : exn)
  (rows : list row) (seq : N) :
  is_Exception e = true ->
  encodable operation = true ->
  encodable cmd = true ->
  encodable (str_of_exn e) = true ->
  on_exception operation cmd now e (Logs rows seq)
  = (Raise e,
     Logs (rows ++ [Row (seq + 1) now operation cmd 0 (str_of_exn e)])
          (seq + 1)).
Proof.
  intros He Ho Hc Hm. unfold on_exception.
  now rewrite He, (@append_log_text _ operation cmd false (str_of_exn e) now
                     rows seq Ho Hc Hm).
Qed.

(** C4, amended: when the request is classified as ([operation],
    [cmd]) and the handler raises an instance [e] of [Exception],
    leaving the log table with [rows], and [cmd] and [str(e)] can be
    encoded as UTF-8, the middleware adds exactly one row, with
    success 0 and message [str(e)], and raises the same [e]. *)
Theorem log_requests_handler_raises
  (req : request) (call_next : handler) (now : str) (s : db)
  (body : pyval) (operation cmd : str) (e : exn)
  (rows : list row) (seq : N) :
  parsed_body req = Ret body ->
  get_operation_info (method req) (path req) (dict_of_query (query req)) body
  = Ret (Some (operation, cmd)) ->
  call_next req s = (Raise e, Logs rows seq) ->
  is_Exception e = true ->
  encodable cmd = true ->
  encodable (str_of_exn e) = true ->
  log_requests req call_next now s
  = (Raise e,
     Logs (rows ++ [Row (seq + 1) now operation cmd 0 (str_of_exn e)])
          (seq + 1)).
Proof.
  intros Hb Hi Hc He Hcmd Hmsg. unfold log_requests.
  rewrite Hb, Hi, Hc.
  exact (@on_exception_row operation cmd now e rows seq He
           (@classified_encodable _ _ _ _ _ _ Hi) Hcmd Hmsg).
Qed.

(** A request that is not classified is handed to the handler and
    the handler's outcome is returned as it is. *)
Lemma log_requests_unclassified
  (req : request) (call_next : handler) (now : str) (s : db) (body : pyval) :
  parsed_body req = Ret body ->
  get_operation_info (method req) (path req) (dict_of_query (query req)) body
  = Ret None ->
  log_requests req call_next now s = call_next req s.
Proof. intros Hb Hi. unfold log_requests. now rewrite Hb, Hi. Qed.



Lemma encode_latin1_text (s : str) :
  latin1_text s = true -> encode_latin1 s = Ret s.
Proof. unfold latin1_text, encode_latin1. now destruct (latin1_error s). Qed.




Lemma raw_for_each (q p : list (str * str)) :
  (forall kv, In kv q ->
     lower_name (fst kv) = fst kv /\
     latin1_text (fst kv) = true /\ latin1_text (snd kv) = true) ->
  for_each
    (fun raw kv =>
       k <- encode_latin1 (lower_name (fst kv)) ;;
       v <- encode_latin1 (snd kv) ;;
       Ret (raw ++ [(k, v)])) q p = Ret (p ++ q).
Proof.
  revert p; induction q as [|[k v] q IH]; intros p Hq; simpl.
  - now rewrite app_nil_r.
  - destruct (Hq (k, v) (or_introl eq_refl)) as (Hl & Hk & Hv).
    simpl in Hl, Hk, Hv.
    rewrite Hl, (@encode_latin1_text k Hk), (@encode_latin1_text v Hv).
    cbn [bind]. rewrite IH.
    + now rewrite <- app_assoc.
    + intros kv Hin. apply Hq. now right.
Qed.




End Extract.

(** C5 as stated fails on a body that is itself a list of results:
    [[{"message": "ok"}]] gives the empty text, not "ok". *)
Lemma extract_list_body_counterexample :
  extract_scoop_output (H := Sample.library)
    (Sample.json_text "[{'message': 'ok'}]") = Ret (PStr []) /\
  extract_scoop_output (H := Sample.library)
    (Sample.json_text "[{'message': 'ok'}]") <> Ret (PStr (lit "ok")).
Proof. split; [vm_compute; reflexivity | vm_compute; discriminate]. Qed.

Example extract_scoop_output_order_witness :
  Sample.json_text "{'message': 'ok'}" <> [] /\
  extract_scoop_output (H := Sample.library)
    (Sample.json_text "{'message': 'ok'}") = Ret (PStr (lit "ok")).
Proof.
  assert (Hne : Sample.json_text "{'message': 'ok'}" <> [])
    by (vm_compute; discriminate).
  split; [exact Hne|].
  apply (proj1 (extract_scoop_output_order (H := Sample.library) Hne)
           [(lit "message", PStr (lit "ok"))]); vm_compute; reflexivity.
Defined.

Example log_requests_handler_raises_witness :
  let req := Request (lit "GET") (lit "/api/apps") [] [] in
  let boom := Exn ValueError (lit "boom") in
  is_Exception boom = true /\
  log_requests (H := Sample.library) req
    (fun _ s => (Raise boom, s)) (lit "2024-01-02T10:00:00") (Logs [] 0)
  = (Raise boom,
     Logs [Row 1 (lit "2024-01-02T10:00:00") L_list_apps (lit "scoop list")
               0 (lit "boom")] 1).
Proof.
  split; [reflexivity|].
  apply (@log_requests_handler_raises Sample.library
           (Request (lit "GET") (lit "/api/apps") [] [])
           (fun _ s => (Raise (Exn ValueError (lit "boom")), s))
           (lit "2024-01-02T10:00:00") (Logs [] 0) (PDict [])
           L_list_apps (lit "scoop list") (Exn ValueError (lit "boom")) [] 0);
    reflexivity.
Defined.

(** C4 as stated fails in three ways.  A handler that is cancelled
    raises an exception that is not an [Exception]: no row is written.
    When the log table is missing, the error of sqlite is raised in
    place of the handler's.  When the command holds a lone surrogate
    - POST /api/apps/update with the app name "\ud800" - sqlite cannot
    encode it: no row is written and [UnicodeEncodeError] is raised in
    place of the handler's exception. *)
Lemma log_requests_handler_raises_counterexample :
  let boom := Exn ValueError (lit "boom") in
  let cancelled := Exn CancelledError [] in
  let now := lit "2024-01-02T10:00:00" in
  log_requests (H := Sample.library)
    (Request (lit "GET") (lit "/api/apps") [] [])
    (fun _ s => (Raise cancelled, s)) now (Logs [] 0)
  = (Raise cancelled, Logs [] 0) /\
  log_requests (H := Sample.library)
    (Request (lit "GET") (lit "/api/apps") [] [])
    (fun _ s => (Raise boom, s)) now NoTable
  = (Raise (Exn OperationalError (lit "no such table: logs")), NoTable) /\
  log_requests (H := Sample.library)
    (Request (lit "POST") (lit "/api/apps/update") []
       (Sample.json_text "{'apps': ['\ud800']}"))
    (fun _ s => (Raise boom, s)) now (Logs [] 0)
  = (Raise (Exn UnicodeEncodeError
       (lit "'utf-8' codec can't encode character '\ud800' in position 13: surrogates not allowed")),
     Logs [] 0).
Proof. repeat split. Qed.

(** C3, at an input where it fails.  POST /api/apps/update with the
    JSON body [[]]: the classifier calls [body.get] on a list, the
    middleware raises [AttributeError] and the handler is never
    called, whatever response it would have produced. *)
Theorem log_requests_list_body_raises
  (call_next : handler) (now : str) (s : db) :
  log_requests (H := Sample.library)
    (Request (lit "POST") (lit "/api/apps/update") [] (Sample.json_text "[]"))
    call_next now s
  = (Raise (Exn AttributeError (lit "'list' object has no attribute 'get'")), s).
Proof. reflexivity. Qed.

(** The same at a response: GET /api/apps answered with status 200 and
    the JSON body [5]; the extraction of the message raises
    [TypeError], one failure row is written and the response is lost. *)
Lemma log_requests_scalar_body_raises :
  let resp := Response 200 [] None [Sample.json_text "5"] in
  fst (log_requests (H := Sample.library)
         (Request (lit "GET") (lit "/api/apps") [] [])
         (fun _ s => (Ret resp, s)) (lit "2024-01-02T10:00:00") (Logs [] 0))
  = Raise (Exn TypeError (lit "argument of type 'int' is not iterable")).
Proof. reflexivity. Qed.

End MiddlewareFacts.

(** ** CommandRunner and the classifier of install requests *)

Module RunnerFacts.
Import Py Exc Parser Value Classifier Middleware Runner.
Local Open Scope py_scope.

(** C6: when the process exits before the timeout, the runner
    returns the decoded standard output, the decoded standard error
    and the exit code, whatever the exit code is; it does not raise. *)
Theorem run_scoop_command_exited `{Library}
  (args : list str) (stdout stderr : bytes) (code : Z) :
  run_scoop_command args (Exited stdout stderr (Some code))
  = Ret (decode_ignore stdout, decode_ignore stderr, code).
Proof.
  unfold run_scoop_command.
  destruct (Z.eqb code 0) eqn:E; [|reflexivity].
  apply Z.eqb_eq in E. now subst.
Qed.

(** C9, at an input where it fails.  POST /api/apps/install?name=git
    with the body [{"version": "2.44.0"}]: the classifier records
    "scoop install git", the handler runs "scoop install git@2.44.0". *)
Theorem install_classified_without_version :
  let req := Request (lit "POST") (lit "/api/apps/install")
                     [(lit "name", lit "git")]
                     (Sample.json_text "{'version': '2.44.0'}") in
  let request := {| version := Some (lit "2.44.0"); target_app := None |} in
  (body <- parsed_body (H := Sample.library) req ;;
   get_operation_info (H := Sample.library) (method req) (path req)
     (dict_of_query (query req)) body)
  = Ret (Some (L_install, lit "scoop install git")) /\
  command_line [lit "install"; install_target request (lit "git")]
  = lit "scoop install git@2.44.0" /\
  lit "scoop install git" <> lit "scoop install git@2.44.0".
Proof.
  cbv zeta. split; [vm_compute; reflexivity|].
  split; [vm_compute; reflexivity | vm_compute; discriminate].
Qed.

End RunnerFacts.

(** ** More on the parsers *)

Module ParserMore.
Import Py Exc Parser ParserFacts Provenance.
Local Open Scope py_scope.

(** A property that holds before a loop and is kept by every
    iteration that returns holds after the loop. *)
Lemma for_each_invariant {S A} (body : S -> A -> result S) (P : S -> Prop)
  (l : list A) :
  (forall s x s', In x l -> P s -> body s x = Ret s' -> P s') ->
  forall s s', P s -> for_each body l s = Ret s' -> P s'.
Proof.
  induction l as [|x l IH]; intros Hstep s s' Hs; simpl.
  - intros [= <-]. exact Hs.
  - destruct (body s x) as [s1|e] eqn:E; simpl; [|discriminate].
    apply IH.
    + intros t y t' Hy. apply Hstep. now right.
    + eapply Hstep; [now left | exact Hs | exact E].
Qed.

(** A loop whose iterations never raise on the elements of the list. *)
Lemma for_each_total_on {S A} (body : S -> A -> result S) (l : list A) :
  (forall s x, In x l -> exists s', body s x = Ret s') ->
  forall s, exists s', for_each body l s = Ret s'.
Proof.
  induction l as [|x l IH]; intros Hb s; simpl; [eauto|].
  destruct (Hb s x (or_introl eq_refl)) as [s' ->]; simpl.
  apply IH. intros t y Hy. apply Hb. now right.
Qed.

Lemma parse_list_line_from (apps apps' : list app_row) (line : str) :
  parse_list_line apps line = Ret apps' ->
  apps' = apps \/ exists r, apps' = apps ++ [r] /\ from_line r line.
Proof.
  unfold parse_list_line.
  destruct (_ || _); [intros [= <-]; now left|].
  destruct (split (strip line)) as [|a [|b parts]] eqn:Es; simpl;
    try (intros [= <-]; now left).
  destruct parts as [|c [|d [|e r]]]; simpl; intros [= <-]; right;
    eexists; (split; [reflexivity|]); unfold from_line; rewrite Es;
    eexists; simpl; repeat split; reflexivity.
Qed.

(** Every record [parse_list_output] returns comes from a line of the
    text: its name and version are the first two tokens of the line,
    its bucket the third token or "main", its update time the fourth
    token (joined with the fifth by one space when there is one), and
    it is held exactly when the line contains "Held". *)
Theorem parse_list_output_records (output : str) (apps : list app_row)
  (r : app_row) :
  parse_list_output output = Ret apps ->
  In r apps ->
  exists line, In line (split_on 10 (strip output)) /\ from_line r line.
Proof.
  unfold parse_list_output. intros Hp.
  revert r.
  refine (@for_each_invariant _ _ parse_list_line
            (fun apps => forall r, In r apps -> exists line,
               In line (split_on 10 (strip output)) /\ from_line r line)
            (split_on 10 (strip output)) _ [] apps _ Hp).
  - intros s x s' Hx Hs Hb r Hr.
    destruct (parse_list_line_from _ _ Hb) as [-> | (r0 & -> & Hf)];
      [now apply Hs|].
    apply in_app_iff in Hr as [Hr | [<- | []]]; [now apply Hs | eauto].
  - intros r [].
Qed.

Example parse_list_output_records_witness :
  exists line,
    In line (split_on 10 (strip Sample.listing)) /\
    from_line (AppRow (lit "git") (lit "2.44.0") (lit "main")
                      (Some (lit "2024-01-02 10:00")) false) line.
Proof.
  apply (@parse_list_output_records Sample.listing
           [AppRow (lit "git") (lit "2.44.0") (lit "main")
                   (Some (lit "2024-01-02 10:00")) false]).
  - vm_compute. reflexivity.
  - simpl. now left.
Defined.

Lemma status_fold_from `{Unicode} (lines l : list str) (d : dict str) :
  (forall x, In x l -> In x lines) ->
  (forall k v, dict_get d k = Some v ->
     exists line, In line lines /\ status_item line = Some (k, v)) ->
  forall k v, dict_get (fold_left status_step l d) k = Some v ->
    exists line, In line lines /\ status_item line = Some (k, v).
Proof.
  revert d; induction l as [|x l IH]; intros d Hl Hd; simpl; [exact Hd|].
  apply IH; [intros y Hy; apply Hl; now right|].
  intros k v. unfold status_step.
  destruct (status_item x) as [[k0 v0]|] eqn:E; [|apply Hd].
  destruct (str_eqb k0 k) eqn:Ek.
  - apply str_eqb_eq in Ek; subst k0. rewrite dict_get_set_same.
    intros [= <-]. exists x. split; [apply Hl; now left | exact E].
  - apply str_eqb_neq in Ek. rewrite dict_get_set_other by exact Ek.
    apply Hd.
Qed.

(** [parse_status_output] returns a mapping for every text; no name
    occurs twice in it, and each of its items is the (first token,
    third token) of a line that is not skipped. *)
Theorem parse_status_output_mapping `{Unicode} (output : str) :
  exists updates,
    parse_status_output output = Ret updates /\
    NoDup (map fst updates) /\
    forall k v, dict_get updates k = Some v ->
      exists line, In line (split_on 10 (strip output))
                   /\ status_item line = Some (k, v).
Proof.
  unfold parse_status_output. rewrite for_each_status.
  eexists; split; [reflexivity|]. split.
  - apply status_fold_NoDup. constructor.
  - apply status_fold_from; [auto|]. intros k v. discriminate.
Qed.

Lemma grouped_line_keeps `{Unicode} (keep : str -> bool)
  (st st' : str * list version_info) (line : str) :
  grouped_line keep st line = Ret st' ->
  snd st' = snd st \/
  exists r, snd st' = snd st ++ [r] /\ keep (v_name r) = true.
Proof.
  unfold grouped_line. destruct st as [b vs].
  destruct (strip line) as [|c l]; [intros [= <-]; now left|].
  destruct (_ && _).
  - destruct (contains _ _).
    + destruct (index _ 1); simpl; [intros [= <-]; now left | discriminate].
    + intros [= <-]; now left.
  - destruct (startswith _ _); [intros [= <-]; now left|].
    destruct (match_name_version _) as [[a v]|]; [|intros [= <-]; now left].
    destruct (keep a) eqn:Ek; intros [= <-]; [right | now left].
    eexists; split; [reflexivity | exact Ek].
Qed.

Lemma tabular_line_keeps (skip keep : str -> bool)
  (vs vs' : list version_info) (line : str) :
  tabular_line skip keep vs line = Ret vs' ->
  vs' = vs \/ exists r, vs' = vs ++ [r] /\ keep (v_name r) = true.
Proof.
  unfold tabular_line.
  destruct (_ || _); [intros [= <-]; now left|].
  destruct (split (strip line)) as [|a [|b [|c r]]]; simpl;
    try (intros [= <-]; now left).
  destruct (keep a) eqn:Ek; intros [= <-]; [right | now left].
  eexists; split; [reflexivity | exact Ek].
Qed.

(** Every record [get_available_versions] builds from the search
    output, in either textual shape, names the queried application or
    a variant "<query>-...", compared in lower case. *)
Theorem get_available_versions_parse_filtered `{Unicode}
  (use_scoop_search : bool) (name output : str)
  (versions : list version_info) (r : version_info) :
  get_available_versions_parse use_scoop_search name output = Ret versions ->
  In r versions ->
  same_app (v_name r) name = true.
Proof.
  unfold get_available_versions_parse. destruct use_scoop_search.
  - destruct (for_each _ _ _) as [st|e] eqn:E; simpl; [|discriminate].
    intros [= <-]. revert r.
    refine (@for_each_invariant _ _
              (grouped_line (fun a => same_app a name))
              (fun st => forall r, In r (snd st) -> same_app (v_name r) name = true)
              _ _ (lit "unknown", []) st _ E).
    + intros s x s' _ Hs Hb r Hr.
      destruct (@grouped_line_keeps _ _ _ _ _ Hb) as [Heq | (r0 & Heq & Hk)];
        rewrite Heq in Hr; [now apply Hs|].
      apply in_app_iff in Hr as [Hr | [<- | []]]; [now apply Hs | exact Hk].
    + intros r [].
  - intros Hp. revert r.
    refine (@for_each_invariant _ _ _
              (fun vs => forall r, In r vs -> same_app (v_name r) name = true)
              _ _ [] versions _ Hp).
    + intros s x s' _ Hs Hb r Hr.
      destruct (@tabular_line_keeps _ _ _ _ _ Hb) as [-> | (r0 & -> & Hk)];
        [now apply Hs|].
      apply in_app_iff in Hr as [Hr | [<- | []]]; [now apply Hs | exact Hk].
    + intros r [].
Qed.

Example get_available_versions_parse_filtered_witness :
  same_app (lit "git-lfs") (lit "Git") = true.
Proof.
  apply (@get_available_versions_parse_filtered latin1 true (lit "Git")
           (lit "'main' bucket:" ++ [10] ++ lit "    git-lfs (3.4.0)" ++ [10]
            ++ lit "    gitui (0.24)")
           [VersionInfo (lit "git-lfs") (lit "3.4.0") (lit "main")]
           (VersionInfo (lit "git-lfs") (lit "3.4.0") (lit "main"))).
  - vm_compute. reflexivity.
  - simpl. now left.
Defined.

Lemma In_lstrip (c : char) (s : str) : In c (lstrip s) -> In c s.
Proof.
  induction s as [|x s IH]; simpl; [tauto|].
  destruct (isspace x); [auto | tauto].
Qed.

Lemma In_strip (c : char) (s : str) : In c (strip s) -> In c s.
Proof.
  unfold strip, rstrip. intros Hc.
  apply in_rev, In_lstrip in Hc. apply in_rev in Hc. now apply In_lstrip.
Qed.

Lemma In_split_on (sep c : char) (s w : str) :
  In w (split_on sep s) -> In c w -> In c s.
Proof.
  revert w; induction s as [|x s IH]; intros w; simpl.
  - intros [<- | []] [].
  - destruct (x =? sep).
    + intros [<- | Hw] Hc; [destruct Hc | right; eauto].
    + destruct (split_on sep s) as [|w0 ws] eqn:E.
      * intros [<- | []] [<- | []]. now left.
      * intros [<- | Hw] Hc.
        -- destruct Hc as [<- | Hc]; [now left | right].
           apply (IH w0); [now left | exact Hc].
        -- right. apply (IH w); [now right | exact Hc].
Qed.

Lemma In_split_ws_aux (c : char) (s cur w : str) :
  In w (split_ws_aux cur s) -> In c w -> In c cur \/ In c s.
Proof.
  revert cur w; induction s as [|x s IH]; intros cur w; simpl.
  - destruct cur; [intros [] | intros [<- | []] Hc].
    left. now apply in_rev.
  - destruct (isspace x).
    + destruct cur as [|y cur].
      * intros Hw Hc. destruct (IH [] w Hw Hc) as [[] | Hs]. auto.
      * intros [<- | Hw] Hc.
        -- left. now apply in_rev.
        -- destruct (IH [] w Hw Hc) as [[] | Hs]. auto.
    + intros Hw Hc. destruct (IH (x :: cur) w Hw Hc) as [[<- | Hs] | Hs]; auto.
Qed.

Lemma In_split (c : char) (s w : str) : In w (split s) -> In c w -> In c s.
Proof.
  intros Hw Hc. destruct (@In_split_ws_aux c s [] w Hw Hc) as [[] | Hs]. exact Hs.
Qed.

Lemma int_digits_decimal `{Unicode} (s : str) (acc : N) :
  (forall c, In c s -> decimal_cp c <> None) ->
  exists n, int_digits acc s = Some n.
Proof.
  revert acc; induction s as [|x s IH]; intros acc Hs; simpl; [eauto|].
  destruct (decimal_cp x) as [d|] eqn:E.
  - apply IH. intros c Hc. apply Hs. now right.
  - exfalso. apply (Hs x); [now left | exact E].
Qed.

Lemma leading_digits_le `{Unicode} (s : str) :
  (leading_digits s <= List.length s)%nat.
Proof.
  induction s as [|x s IH]; simpl; [lia|].
  destruct (decimal_cp x); lia.
Qed.

Lemma int_of_digits `{Unicode} (s : str) :
  isdigit s = true ->
  (forall c, In c s -> isdigit_cp c = true -> decimal_cp c <> None) ->
  (List.length s <= max_str_digits)%nat ->
  exists n, int_of s = Ret n.
Proof.
  unfold isdigit, int_of. intros Hd Hs Hlen.
  replace (max_str_digits <? leading_digits s)%nat with false.
  2:{ symmetry. apply Nat.ltb_ge.
      etransitivity; [apply leading_digits_le | exact Hlen]. }
  destruct s as [|x s]; [discriminate|].
  rewrite forallb_forall in Hd.
  destruct (@int_digits_decimal _ (x :: s) 0) as [n ->]; [|eauto].
  intros c Hc. apply Hs; auto.
Qed.

Lemma get_buckets_line_total `{Unicode} (buckets : list bucket_info)
  (line : str) :
  (forall c, In c line -> isdigit_cp c = true -> decimal_cp c <> None) ->
  (forall part, In part (split (strip line)) ->
     (List.length part <= max_str_digits)%nat) ->
  exists buckets', get_buckets_line buckets line = Ret buckets'.
Proof.
  intros Hl Hp. unfold get_buckets_line.
  destruct (_ || _); [eauto|].
  destruct (split (strip line)) as [|a [|b [|c [|d [|e r]]]]] eqn:Es;
    simpl; eauto.
  destruct (isdigit e) eqn:Ed; simpl; [|eauto].
  destruct (@int_of_digits _ e Ed) as [n ->]; simpl; [| |eauto].
  - intros x Hx. apply Hl. apply In_strip.
    apply (@In_split x (strip line) e); [|exact Hx].
    rewrite Es. simpl. tauto.
  - apply Hp. simpl. tauto.
Qed.

(** The bucket listing is parsed without an exception as soon as every
    character of the text that counts as a digit is a decimal digit,
    as in any ASCII text, and no word of a line is longer than the
    4300 digits [int] accepts. *)
Theorem get_buckets_parse_total_decimal `{Unicode} (stdout : str) :
  (forall c, In c stdout -> isdigit_cp c = true -> decimal_cp c <> None) ->
  (forall line part,
     In line (split_on 10 (strip stdout)) ->
     In part (split (strip line)) ->
     (List.length part <= max_str_digits)%nat) ->
  exists buckets, get_buckets_parse stdout = Ret buckets.
Proof.
  intros Hs Hp. unfold get_buckets_parse.
  apply for_each_total_on. intros s line Hline.
  apply get_buckets_line_total.
  - intros c Hc.
    apply Hs. apply In_strip. now apply (@In_split_on 10 c (strip stdout) line).
  - intros part Hpart. exact (Hp line part Hline Hpart).
Qed.

Example get_buckets_parse_total_decimal_witness :
  exists buckets,
    get_buckets_parse (lit "main https://x 2024-01-02 10:00 1392")
    = Ret buckets.
Proof.
  apply (@get_buckets_parse_total_decimal latin1).
  - intros c Hc Hd.
    repeat (destruct Hc as [<- | Hc]; [vm_compute; discriminate|]).
    destruct Hc.
  - intros line part Hl Hp. vm_compute in Hl. destruct Hl as [<- | []].
    vm_compute in Hp.
    repeat (destruct Hp as [<- | Hp];
            [apply Nat.leb_le; vm_compute; reflexivity|]).
    destruct Hp.
Defined.

End ParserMore.

(** ** More on the audit log *)

Module AuditMore.
Import Py Exc Parser Value AuditLog AuditOps AuditLogFacts.

Section Ops.
Context `{Library}.

Lemma ascending_weaken (rows : list row) (seq seq' : N) :
  seq <= seq' -> ascending rows seq -> ascending rows seq'.
Proof.
  intros Hle. induction rows as [|r rows IH]; simpl; [tauto|].
  intros (Hr & Hf & Ha). repeat split; [lia | assumption | auto].
Qed.

Lemma ascending_snoc (rows : list row) (seq : N) (r : row) :
  row_id r = seq + 1 -> ascending rows seq -> ascending (rows ++ [r]) (seq + 1).
Proof.
  intros Hr. induction rows as [|x rows IH]; simpl.
  - intros _. repeat split; [lia | constructor].
  - intros (Hx & Hf & Ha). repeat split; [lia | | auto].
    apply Forall_app. split; [assumption|].
    repeat constructor. lia.
Qed.

Lemma order_ascending (rows : list row) (seq : N) :
  ascending rows seq -> order_by_id_desc rows = rev rows.
Proof.
  induction rows as [|r rows IH]; simpl; [reflexivity|].
  intros (_ & Hf & Ha). rewrite (IH Ha).
  apply insert_desc_last. now apply Forall_rev_iff.
Qed.

Lemma ascending_bounds (rows : list row) (seq : N) :
  ascending rows seq -> Forall (fun r => row_id r <= seq) rows.
Proof.
  induction rows as [|r rows IH]; simpl; [constructor|].
  intros (Hr & _ & Ha). constructor; auto.
Qed.

(** The shape of the store after any appends and clears. *)
Lemma run_ops_shape (ops : list op) (rows : list row) (seq lo : N)
  (acc : list call) :
  map entry_of_row rows = map entry_of_call acc ->
  ascending rows seq ->
  Forall (fun r => lo < row_id r) rows ->
  lo <= seq ->
  exists rows' seq',
    run_ops ops (Logs rows seq) = Logs rows' seq' /\
    seq <= seq' /\
    ascending rows' seq' /\
    Forall (fun r => lo < row_id r) rows' /\
    map entry_of_row rows' = map entry_of_call (since_clear acc ops).
Proof.
  revert rows seq acc; induction ops as [|[c|] ops IH];
    intros rows seq acc He Ha Hlo Hle.
  - exists rows, seq. simpl. repeat split; auto. lia.
  - cbn [run_ops since_clear]. destruct (call_bound c) as (Ho & Hc & Hm).
    rewrite (@append_log_text _ (c_operation c) (c_command c) (c_success c)
               (c_message c) (c_now c) rows seq Ho Hc Hm).
    cbn [snd].
    edestruct (IH (rows ++ [Row (seq + 1) (c_now c) (c_operation c)
                               (c_command c)
                               (if c_success c then 1 else 0)%Z
                               (c_message c)])
                  (seq + 1) (acc ++ [c]))
      as (rows' & seq' & Hr & Hs & Ha' & Hlo' & He').
    + rewrite !map_app, He. simpl. f_equal.
      unfold entry_of_row, entry_of_call; simpl. now destruct (c_success c).
    + now apply ascending_snoc.
    + apply Forall_app. split; [assumption|]. repeat constructor. simpl. lia.
    + lia.
    + exists rows', seq'. repeat split; auto. lia.
  - cbn [run_ops since_clear clear_logs snd].
    destruct (IH [] seq []) as (rows' & seq' & Hr & Hs & Ha' & Hlo' & He');
      simpl; auto.
    exists rows', seq'. repeat split; auto.
Qed.

(** After any sequence of appends and clears on a table, reading with
    a limit the driver accepts returns the entries appended since the
    last clear, newest first, cut to the limit when it is not
    negative.  The appends are [call]s, whose texts the driver can
    bind. *)
Theorem read_logs_after_ops (ops : list op) (seq : N) (limit : Z) :
  int64 limit = true ->
  fst (read_logs limit (run_ops ops (Logs [] seq)))
  = Ret (sql_limit limit (rev (map entry_of_call (since_clear [] ops)))).
Proof.
  intros Hl.
  destruct (@run_ops_shape ops [] seq seq [])
    as (rows' & seq' & -> & _ & Ha & _ & He); simpl; auto; [lia|].
  cbn [read_logs]. rewrite Hl. cbn [fst]. f_equal.
  rewrite (@order_ascending rows' seq' Ha). unfold sql_limit.
  destruct (limit <? 0)%Z.
  - now rewrite map_rev, He.
  - now rewrite <- firstn_map, map_rev, He.
Qed.

(** Keys are never handed out twice: after any appends and clears on
    a table whose sequence stood at [seq] (cleared or fresh), the rows
    present have keys above [seq], strictly growing in the order of
    insertion, and none above the new sequence value. *)
Theorem run_ops_keys (ops : list op) (seq : N) :
  exists rows' seq',
    run_ops ops (Logs [] seq) = Logs rows' seq' /\
    seq <= seq' /\
    ascending rows' seq' /\
    Forall (fun r => seq < row_id r <= seq') rows'.
Proof.
  destruct (@run_ops_shape ops [] seq seq [])
    as (rows' & seq' & Hr & Hs & Ha & Hlo & _); simpl; auto; [lia|].
  exists rows', seq'. repeat split; auto.
  pose proof (@ascending_bounds rows' seq' Ha) as Hb.
  rewrite Forall_forall in *. intros r Hr'. split; auto.
Qed.

End Ops.

Example read_logs_after_ops_witness :
  fst (read_logs 1
         (run_ops (H := Sample.library)
            [Append Sample.call1; Clear; Append Sample.call2; Append Sample.call1]
            (Logs [] 0)))
  = Ret [entry_of_call Sample.call1].
Proof.
  apply (@read_logs_after_ops Sample.library
           [Append Sample.call1; Clear; Append Sample.call2; Append Sample.call1]
           0 1).
  reflexivity.
Defined.

End AuditMore.

(** ** More on the classifier *)

Module ClassifierMore.
Import Py Exc Parser Value Classifier Runner Handlers ParserFacts Bodies.
Local Open Scope py_scope.
Local Unset Implicit Arguments.

Lemma startswith_app (p s : str) : startswith (p ++ s) p = true.
Proof.
  induction p as [|x p IH]; simpl; [apply startswith_nil|].
  now rewrite N.eqb_refl.
Qed.

Lemma startswith_prefix (s p : str) :
  startswith s p = true -> exists rest, s = p ++ rest.
Proof.
  revert s; induction p as [|x p IH]; intros s; [exists s; reflexivity|].
  destruct s as [|y s]; simpl; [discriminate|].
  rewrite andb_true_iff, N.eqb_eq. intros [-> Hs].
  destruct (IH _ Hs) as [rest ->]. now exists rest.
Qed.

Lemma endswith_app (s p : str) : endswith (s ++ p) p = true.
Proof. unfold endswith. rewrite rev_app_distr. apply startswith_app. Qed.

Lemma split_on_sep (c : char) (s : str) :
  split_on c (c :: s) = [] :: split_on c s.
Proof. simpl. now rewrite N.eqb_refl. Qed.

Lemma split_on_word (c : char) (w s : str) :
  ~ In c w -> split_on c (w ++ c :: s) = w :: split_on c s.
Proof.
  induction w as [|x w IH]; intros Hw; [apply split_on_sep|].
  simpl in *. destruct (x =? c) eqn:E.
  - apply N.eqb_eq in E. tauto.
  - rewrite IH by tauto. reflexivity.
Qed.

Lemma split_on_last (c : char) (w : str) :
  ~ In c w -> split_on c w = [w].
Proof.
  induction w as [|x w IH]; intros Hw; [reflexivity|].
  simpl in *. destruct (x =? c) eqn:E.
  - apply N.eqb_eq in E. tauto.
  - rewrite IH by tauto. reflexivity.
Qed.

(** The parts of a path under a two-segment root. *)
Lemma split_root (a b rest : str) :
  ~ In 47 a -> ~ In 47 b ->
  split_on 47 (47 :: a ++ 47 :: b ++ 47 :: rest)
  = [] :: a :: b :: split_on 47 rest.
Proof.
  intros Ha Hb.
  now rewrite split_on_sep, (split_on_word _ _ _ Ha), (split_on_word _ _ _ Hb).
Qed.

Lemma no_slash_api : ~ In 47 (lit "api").
Proof. vm_compute. intuition discriminate. Qed.

Lemma no_slash_apps : ~ In 47 (lit "apps").
Proof. vm_compute. intuition discriminate. Qed.

Lemma no_slash_buckets : ~ In 47 (lit "buckets").
Proof. vm_compute. intuition discriminate. Qed.

(** [path.split("/")[3]] exists for every path under /api/apps/. *)
Lemma segment3_under_apps (path : str) :
  startswith path (lit "/api/apps/") = true ->
  exists seg, segment3 path = Ret seg.
Proof.
  intros Hp. destruct (startswith_prefix _ _ Hp) as [rest ->].
  unfold segment3.
  change (lit "/api/apps/" ++ rest)
    with (47 :: lit "api" ++ 47 :: lit "apps" ++ 47 :: rest).
  rewrite (split_root _ _ _ no_slash_api no_slash_apps).
  destruct (ParserFacts.split_on_nonempty 47 rest) as (w & ws & ->).
  exists w. reflexivity.
Qed.

Lemma segment3_under_buckets (path : str) :
  startswith path (lit "/api/buckets/") = true ->
  exists seg, segment3 path = Ret seg.
Proof.
  intros Hp. destruct (startswith_prefix _ _ Hp) as [rest ->].
  unfold segment3.
  change (lit "/api/buckets/" ++ rest)
    with (47 :: lit "api" ++ 47 :: lit "buckets" ++ 47 :: rest).
  rewrite (split_root _ _ _ no_slash_api no_slash_buckets).
  destruct (ParserFacts.split_on_nonempty 47 rest) as (w & ws & ->).
  exists w. reflexivity.
Qed.

Lemma all_str_map (names : list str) : all_str (map PStr names) = Some names.
Proof. induction names as [|n names IH]; simpl; [reflexivity|]. now rewrite IH. Qed.

Lemma get_obj (d : list (str * pyval)) (k : str) (default : pyval) :
  exists v, get (PDict d) k default = Ret v.
Proof. cbn [get]. destruct (dict_get d k); eauto. Qed.

(** One step on the statement at the head of the classifier. *)
Ltac step Happs :=
  match goal with
  | |- exists _, Ret _ = Ret _ => eauto
  | |- exists _, (if ?c then _ else _) = _ => destruct c eqn:?; cbn [andb] in *
  | |- exists _, bind (segment3 ?p) _ = _ =>
      let seg := fresh "seg" in
      first [ destruct (segment3_under_apps p) as [seg ->]; [assumption|]
            | destruct (segment3_under_buckets p) as [seg ->]; [assumption|] ];
      cbn [bind]
  | |- exists _, bind (get (PDict ?d) (lit "apps") _) _ = _ =>
      let Ha := fresh "Ha" in
      pose proof Happs as Ha;
      cbn [get]; destruct Ha as [-> | (? & ->)]; cbn [bind join_val];
      try rewrite all_str_map; cbn [bind all_str]
  | |- exists _, bind (get (PDict ?d) ?k ?def) _ = _ =>
      let v := fresh "v" in
      destruct (get_obj d k def) as [v ->]; cbn [bind]
  | Hq : _ && dict_mem ?q ?k = true |- exists _, match dict_get ?q ?k with _ => _ end = _ =>
      unfold dict_mem in Hq; destruct (dict_get q k);
      [|rewrite andb_false_r in Hq; discriminate]
  end.


Ltac decide_ifs :=
  repeat match goal with
    | |- context [map_lookup ?m ?a ?b] =>
        let v := eval vm_compute in (map_lookup m a b) in
        change (map_lookup m a b) with v; cbv iota
    | |- context [if ?c then _ else _] =>
        let v := eval vm_compute in c in
        match v with
        | true => change c with true
        | false => change c with false
        end; cbv iota
    end.

Lemma join_cons (sep w : str) (ws : list str) :
  ws <> [] -> join sep (w :: ws) = w ++ sep ++ join sep ws.
Proof. destruct ws; [congruence | reflexivity]. Qed.

(** For the four batch routes, when the body lists at least one
    application name, the command text the classifier records is the
    command line the handler runs. *)
Theorem batch_commands_agree `{Library} (query_params : dict str) (d : list (str * pyval))
  (apps : list str) :
  apps <> [] ->
  dict_get d (lit "apps") = Some (PList (map PStr apps)) ->
  get_operation_info (lit "POST") (lit "/api/apps/update") query_params (PDict d)
  = Ret (Some (L_update, command_line (batch_args (lit "update") apps))) /\
  get_operation_info (lit "POST") (lit "/api/apps/uninstall") query_params (PDict d)
  = Ret (Some (L_uninstall, command_line (batch_args (lit "uninstall") apps))) /\
  get_operation_info (lit "POST") (lit "/api/apps/hold") query_params (PDict d)
  = Ret (Some (L_hold, command_line (batch_args (lit "hold") apps))) /\
  get_operation_info (lit "DELETE") (lit "/api/apps/hold") query_params (PDict d)
  = Ret (Some (L_unhold, command_line (batch_args (lit "unhold") apps))).
Proof.
  intros Hne Hd.
  unfold command_line, batch_args. rewrite !(join_cons _ _ _ Hne).
  repeat split; unfold get_operation_info; decide_ifs;
    cbn [get]; rewrite Hd; cbn [bind join_val]; rewrite all_str_map;
    reflexivity.
Qed.

Lemma str_eqb_app (p x y : str) : str_eqb (p ++ x) (p ++ y) = str_eqb x y.
Proof. induction p as [|c p IH]; simpl; [reflexivity|]. now rewrite N.eqb_refl. Qed.

Lemma str_eqb_slash (x y : str) : In 47 x -> ~ In 47 y -> str_eqb x y = false.
Proof. intros Hx Hy. apply str_eqb_neq. intros ->. contradiction. Qed.

Lemma route_not_exact (name suffix w : str) :
  ~ In 47 w -> str_eqb (route name suffix) (lit "/api/apps/" ++ w) = false.
Proof.
  intros Hw. unfold route. rewrite str_eqb_app.
  apply str_eqb_slash; [|exact Hw]. apply in_or_app. right. now left.
Qed.

Lemma route_segment3 (name suffix : str) :
  ~ In 47 name -> segment3 (route name suffix) = Ret name.
Proof.
  intros Hn. unfold segment3, route.
  change (lit "/api/apps/" ++ name ++ 47 :: suffix)
    with (47 :: lit "api" ++ 47 :: lit "apps" ++ 47 :: name ++ 47 :: suffix).
  rewrite (split_root _ _ _ no_slash_api no_slash_apps).
  rewrite (split_on_word _ _ _ Hn). reflexivity.
Qed.

Lemma route_under_apps (name suffix : str) :
  startswith (route name suffix) (lit "/api/apps/") = true.
Proof. apply startswith_app. Qed.

Lemma route_endswith (name suffix : str) :
  endswith (route name suffix) (47 :: suffix) = true.
Proof.
  unfold route. rewrite app_assoc. apply endswith_app.
Qed.

Ltac no_slash := vm_compute; intuition discriminate.

(** For POST /api/apps/<name>/reset the classifier records the command
    line [reset_app] runs, and it classifies nothing exactly when
    [reset_app] has no command to run (neither a target application
    nor a version). *)
Theorem reset_command_agrees `{Library} (name : str) (query_params : dict str)
  (d : list (str * pyval)) (r : ResetRequest) :
  ~ In 47 name ->
  carries_reset d r ->
  get_operation_info (lit "POST") (route name (lit "reset")) query_params (PDict d)
  = Ret (option_map (fun args => (L_reset, command_line args))
           (reset_args name r)).
Proof.
  intros Hn [Hv Ht].
  pose proof (route_segment3 name (lit "reset") Hn) as Hseg.
  pose proof (route_under_apps name (lit "reset")) as Hu.
  pose proof (route_endswith name (lit "reset")) as He.
  assert (Hh : endswith (route name (lit "reset")) (lit "/hold") = false).
  { unfold endswith, route. rewrite app_assoc, rev_app_distr. reflexivity. }
  pose proof (route_not_exact name (lit "reset") (lit "update") ltac:(no_slash)) as H1.
  pose proof (route_not_exact name (lit "reset") (lit "uninstall") ltac:(no_slash)) as H2.
  pose proof (route_not_exact name (lit "reset") (lit "install") ltac:(no_slash)) as H3.
  pose proof (route_not_exact name (lit "reset") (lit "hold") ltac:(no_slash)) as H4.
  assert (H5 : str_eqb (route name (lit "reset")) (lit "/api/buckets") = false)
    by reflexivity.
  assert (H0 : map_lookup OPERATION_MAP (lit "POST") (route name (lit "reset")) = None)
    by reflexivity.
  change (lit "/api/apps/" ++ lit "update") with (lit "/api/apps/update") in H1.
  change (lit "/api/apps/" ++ lit "uninstall") with (lit "/api/apps/uninstall") in H2.
  change (lit "/api/apps/" ++ lit "install") with (lit "/api/apps/install") in H3.
  change (lit "/api/apps/" ++ lit "hold") with (lit "/api/apps/hold") in H4.
  change (47 :: lit "reset") with (lit "/reset") in He.
  set (path := route name (lit "reset")) in *. clearbody path.
  unfold get_operation_info. rewrite H0. cbv zeta.
  rewrite Hu, He, Hh, H1, H2, H3, H4, H5. decide_ifs. cbn [andb].
  rewrite Hseg. cbn [bind]. rewrite Hv. cbn [bind]. rewrite Ht. cbn [bind].
  unfold reset_args, given.
  destruct (target_app r) as [[|c t]|]; destruct (version r) as [[|c' v]|];
    reflexivity.
Qed.

Lemma bucket_segment3 (name : str) :
  ~ In 47 name -> segment3 (lit "/api/buckets/" ++ name) = Ret name.
Proof.
  intros Hn. unfold segment3.
  change (lit "/api/buckets/" ++ name)
    with (47 :: lit "api" ++ 47 :: lit "buckets" ++ 47 :: name).
  rewrite (split_root _ _ _ no_slash_api no_slash_buckets).
  rewrite (split_on_last _ _ Hn). reflexivity.
Qed.

(** For the routes that carry one name in the path (hold, unhold,
    remove bucket) the classifier records, whatever the body, the
    command line the handler runs on that name. *)
Theorem single_routes_agree `{Library} (name : str) (query_params : dict str)
  (body : pyval) :
  ~ In 47 name ->
  get_operation_info (lit "POST") (route name (lit "hold")) query_params body
  = Ret (Some (L_hold, command_line [lit "hold"; name])) /\
  get_operation_info (lit "DELETE") (route name (lit "hold")) query_params body
  = Ret (Some (L_unhold, command_line [lit "unhold"; name])) /\
  get_operation_info (lit "DELETE") (lit "/api/buckets/" ++ name) query_params body
  = Ret (Some (L_rm_bucket, command_line [lit "bucket"; lit "rm"; name])).
Proof.
  intros Hn.
  pose proof (route_segment3 name (lit "hold") Hn) as Hseg.
  pose proof (route_under_apps name (lit "hold")) as Hu.
  pose proof (route_endswith name (lit "hold")) as He.
  pose proof (route_not_exact name (lit "hold") (lit "update") ltac:(no_slash)) as H1.
  pose proof (route_not_exact name (lit "hold") (lit "uninstall") ltac:(no_slash)) as H2.
  pose proof (route_not_exact name (lit "hold") (lit "install") ltac:(no_slash)) as H3.
  pose proof (route_not_exact name (lit "hold") (lit "hold") ltac:(no_slash)) as H4.
  assert (H5 : str_eqb (route name (lit "hold")) (lit "/api/buckets") = false)
    by reflexivity.
  assert (H0 : forall m, map_lookup OPERATION_MAP m (route name (lit "hold")) = None).
  { intros m. unfold OPERATION_MAP, map_lookup.
    repeat match goal with
      | |- context [str_eqb ?a (route name ?s)] =>
          change (str_eqb a (route name s)) with false
      end.
    now rewrite !andb_false_r. }
  change (lit "/api/apps/" ++ lit "update") with (lit "/api/apps/update") in H1.
  change (lit "/api/apps/" ++ lit "uninstall") with (lit "/api/apps/uninstall") in H2.
  change (lit "/api/apps/" ++ lit "install") with (lit "/api/apps/install") in H3.
  change (lit "/api/apps/" ++ lit "hold") with (lit "/api/apps/hold") in H4.
  change (47 :: lit "hold") with (lit "/hold") in He.
  pose proof (bucket_segment3 name Hn) as Hb.
  pose proof (startswith_app (lit "/api/buckets/") name) as Hsb.
  assert (Hb1 : str_eqb (lit "/api/buckets/" ++ name) (lit "/api/apps/hold") = false)
    by reflexivity.
  assert (Hb2 : startswith (lit "/api/buckets/" ++ name) (lit "/api/apps/") = false)
    by reflexivity.
  assert (Hb0 : map_lookup OPERATION_MAP (lit "DELETE") (lit "/api/buckets/" ++ name) = None)
    by reflexivity.
  set (path := route name (lit "hold")) in *. clearbody path.
  set (bpath := lit "/api/buckets/" ++ name) in *. clearbody bpath.
  repeat split; unfold get_operation_info; rewrite ?H0, ?Hb0; cbv zeta.
  - rewrite Hu, He, H1, H2, H3, H4, H5. decide_ifs. cbn [andb].
    rewrite Hseg. reflexivity.
  - rewrite Hu, He, H4. decide_ifs. cbn [andb].
    rewrite Hseg. reflexivity.
  - rewrite Hb1, Hb2, Hsb. decide_ifs. cbn [andb].
    rewrite Hb. reflexivity.
Qed.

(** Classifying a GET request never raises, whatever the path, the
    query and the body. *)
Theorem get_operation_info_get_total `{Library}
  (path : str) (query_params : dict str) (body : pyval) :
  exists i, get_operation_info (lit "GET") path query_params body = Ret i.
Proof.
  unfold get_operation_info.
  destruct (map_lookup _ _ _); [eauto|].
  change (str_eqb (lit "GET") (lit "GET")) with true. cbv iota zeta.
  destruct (startswith path (lit "/api/apps/")) eqn:Hu; cbn [andb];
    repeat step True.
Qed.

(** Classifying a request whose body is a JSON object never raises,
    provided its "apps" field is absent or a list of strings. *)
Theorem get_operation_info_object_total `{Library}
  (method path : str) (query_params : dict str) (d : list (str * pyval)) :
  dict_get d (lit "apps") = None \/
  (exists names, dict_get d (lit "apps") = Some (PList (map PStr names))) ->
  exists i, get_operation_info method path query_params (PDict d) = Ret i.
Proof.
  intros Happs. unfold get_operation_info.
  destruct (map_lookup _ _ _); [eauto|]. cbv zeta.
  destruct (startswith path (lit "/api/apps/")) eqn:Hu; cbn [andb];
    repeat step Happs.
Qed.

Example get_operation_info_object_total_witness :
  exists i,
    get_operation_info (H := Sample.library) (lit "POST") (lit "/api/apps/update") []
      (PDict [(lit "apps", PList (map PStr [lit "git"; lit "7zip"]))]) = Ret i.
Proof.
  apply (@get_operation_info_object_total Sample.library).
  right. exists [lit "git"; lit "7zip"]. reflexivity.
Defined.

Example batch_commands_agree_witness :
  get_operation_info (H := Sample.library) (lit "POST") (lit "/api/apps/update") []
    (PDict [(lit "apps", PList (map PStr [lit "git"; lit "7zip"]))])
  = Ret (Some (L_update, lit "scoop update git 7zip")).
Proof.
  apply (proj1 (@batch_commands_agree Sample.library []
                  [(lit "apps", PList (map PStr [lit "git"; lit "7zip"]))]
                  [lit "git"; lit "7zip"]
                  ltac:(discriminate) eq_refl)).
Defined.

Example reset_command_agrees_witness :
  get_operation_info (H := Sample.library) (lit "POST")
    (lit "/api/apps/git/reset") []
    (PDict [(lit "version", PStr (lit "2.44.0"))])
  = Ret (Some (L_reset, lit "scoop reset git@2.44.0")).
Proof.
  apply (@reset_command_agrees Sample.library (lit "git") []
           [(lit "version", PStr (lit "2.44.0"))]
           {| version := Some (lit "2.44.0"); target_app := None |}).
  - vm_compute. intuition discriminate.
  - split; reflexivity.
Defined.

Example single_routes_agree_witness :
  get_operation_info (H := Sample.library) (lit "DELETE")
    (lit "/api/buckets/extras") [] (PDict [])
  = Ret (Some (L_rm_bucket, lit "scoop bucket rm extras")).
Proof.
  apply (proj2 (proj2 (@single_routes_agree Sample.library (lit "extras") []
                         (PDict []) ltac:(vm_compute; intuition discriminate)))).
Defined.

End ClassifierMore.

(** ** More on the middleware *)

Module MiddlewareMore.
Import Py Exc Parser Value Classifier AuditLog Middleware.
Import ParserFacts AuditLogFacts MiddlewareFacts.
Local Open Scope py_scope.
Local Unset Implicit Arguments.

Section Paths.
Context `{Library}.

(** The routes that read or clear the log and that read or write the
    settings are not audited: the middleware hands the request to the
    handler and returns the handler's outcome and store as they are. *)
Theorem log_requests_unaudited_routes
  (req : request) (call_next : handler) (now : str) (s : db) (body : pyval) :
  In (method req, path req)
     [ (lit "GET", lit "/api/logs"); (lit "DELETE", lit "/api/logs");
       (lit "GET", lit "/api/settings"); (lit "POST", lit "/api/settings") ] ->
  parsed_body req = Ret body ->
  log_requests req call_next now s = call_next req s.
Proof.
  intros Hr Hb.
  apply (@log_requests_unclassified _ req call_next now s body Hb).
  destruct req as [m p q b]. simpl in *.
  destruct Hr as [E | [E | [E | [E | []]]]]; injection E as <- <-; reflexivity.
Qed.

Lemma bind_text_cases (t : str) :
  bind_text t = Ret t \/
  exists e, bind_text t = Raise e /\ is_Exception e = true.
Proof.
  unfold bind_text, utf8_error, encode_error.
  destruct (find_run surrogate 0 t) as [[[i c] n]|]; [right | now left].
  eexists. split; reflexivity.
Qed.

Lemma stored_message_cases (m : pyval) :
  (exists t, stored_message m = Ret t) \/
  exists e, stored_message m = Raise e /\ is_Exception e = true.
Proof.
  unfold stored_message. destruct (negb (truthy m)); [left; eauto|].
  destruct m; try (left; eauto; fail); try (right; eexists; split; reflexivity).
  - destruct (int64 z); [left; eauto | right; eexists; split; reflexivity].
  - destruct (bind_text_cases s) as [-> | (e & -> & He)]; [left | right]; eauto.
Qed.

(** What one [append_log] does to a table: one more row under the next
    key, or nothing when it raises. *)
Lemma append_log_cases (operation cmd : str) (success : bool) (m : pyval)
  (now : str) (rows : list row) (seq : N) :
  (exists r, append_log operation cmd success m now (Logs rows seq)
             = (Ret tt, Logs (rows ++ [r]) (seq + 1))
             /\ row_id r = seq + 1 /\ time r = now
             /\ AuditLog.operation r = operation /\ command r = cmd) \/
  (exists e, append_log operation cmd success m now (Logs rows seq)
             = (Raise e, Logs rows seq) /\ is_Exception e = true).
Proof.
  unfold append_log.
  destruct (bind_text_cases operation) as [-> | (e & -> & He)];
    [|right; exists e; now split].
  destruct (bind_text_cases cmd) as [-> | (e & -> & He)];
    [|right; exists e; now split].
  destruct (stored_message_cases m) as [(t & ->) | (e & -> & He)];
    [|right; exists e; now split].
  left. eexists. cbn [bind]. repeat split.
Qed.

Lemma on_exception_cases (operation cmd now : str) (e : exn)
  (rows : list row) (seq : N) :
  snd (on_exception operation cmd now e (Logs rows seq)) = Logs rows seq \/
  exists r, snd (on_exception operation cmd now e (Logs rows seq))
            = Logs (rows ++ [r]) (seq + 1)
            /\ row_id r = seq + 1 /\ time r = now
            /\ AuditLog.operation r = operation /\ command r = cmd.
Proof.
  unfold on_exception. destruct (is_Exception e); [|now left].
  destruct (append_log_cases operation cmd false (PStr (str_of_exn e))
              now rows seq) as [(r & -> & Hr) | (e' & -> & _)].
  - right. now exists r.
  - now left.
Qed.

Lemma header_ok_get (h : list (str * str)) (k v : str) :
  forallb header_ok h = true -> dict_get h k = Some v ->
  header_ok (k, v) = true.
Proof.
  induction h as [|[k' v'] h IH]; simpl; [discriminate|].
  intros Hh. apply andb_true_iff in Hh. destruct Hh as [Hk Hh].
  destruct (str_eqb k' k) eqn:E.
  - apply str_eqb_eq in E. subst k'. now intros [= <-].
  - now apply IH.
Qed.

Lemma header_ok_set (d : list (str * str)) (k v : str) :
  forallb header_ok d = true -> header_ok (k, v) = true ->
  forallb header_ok (dict_set d k v) = true.
Proof.
  intros Hd Hkv. induction d as [|[k' v'] d IH]; simpl.
  - now rewrite Hkv.
  - simpl in Hd. apply andb_true_iff in Hd. destruct Hd as [Hk Hd].
    destruct (str_eqb k' k) eqn:E; simpl.
    + apply str_eqb_eq in E. subst k'. now rewrite Hkv, Hd.
    + now rewrite Hk, IH.
Qed.

Lemma header_ok_lower (kv : str * str) :
  header_ok kv = true -> lower_name (fst kv) = fst kv.
Proof.
  unfold header_ok. intros Hk.
  apply andb_true_iff in Hk. destruct Hk as [Hk _].
  apply andb_true_iff in Hk. destruct Hk as [Hk _].
  now apply str_eqb_eq.
Qed.

Lemma header_ok_spec (kv : str * str) :
  header_ok kv = true ->
  lower_name (fst kv) = fst kv /\
  latin1_text (fst kv) = true /\ latin1_text (snd kv) = true.
Proof.
  intros Hk. split; [now apply header_ok_lower|].
  unfold header_ok in Hk.
  apply andb_true_iff in Hk. destruct Hk as [Hk Hv].
  apply andb_true_iff in Hk. destruct Hk as [_ Hk]. now split.
Qed.

(** [dict(response.headers)] does not raise when every name is stored
    in lower case as Latin-1 text. *)
Lemma headers_total (h q p : list (str * str)) :
  forallb header_ok h = true ->
  (forall kv, In kv q -> In kv h) ->
  forallb header_ok p = true ->
  exists d,
    for_each
      (fun d kv =>
         k <- encode_latin1 (lower_name (fst kv)) ;;
         match dict_get h k with
         | Some v => Ret (dict_set d (fst kv) v)
         | None => raise (Exn KeyError (repr (PStr (fst kv))))
         end) q p = Ret d /\
    forallb header_ok d = true.
Proof.
  intros Hh. revert p; induction q as [|[k v0] q IH]; intros p Hq Hp; simpl.
  - eauto.
  - assert (Hin : In (k, v0) h) by (apply Hq; now left).
    rewrite forallb_forall in Hh. pose proof (Hh _ Hin) as Hk.
    rewrite <- forallb_forall in Hh.
    apply header_ok_spec in Hk. simpl in Hk. destruct Hk as (Hk & Hlat & _).
    rewrite Hk, (encode_latin1_text k Hlat). cbn [bind].
    destruct (dict_get h k) as [v|] eqn:Eg.
    + cbn [bind]. apply IH.
      * intros kv Hkv. apply Hq. now right.
      * apply header_ok_set; [assumption|].
        exact (header_ok_get h k v Hh Eg).
    + exfalso. apply (proj1 (@dict_get_None_keys _ h k) Eg).
      apply in_map_iff. exists (k, v0). now split.
Qed.

Lemma find_run_none (bad : char -> bool) (t : str) (i : N) :
  find_run bad i t = None <-> forallb (fun c => negb (bad c)) t = true.
Proof.
  revert i; induction t as [|c t IH]; intros i; simpl; [tauto|].
  destruct (bad c); simpl; [split; discriminate | apply IH].
Qed.

Lemma latin1_text_forallb (t : str) :
  latin1_text t = forallb (fun c => negb (255 <? c)) t.
Proof.
  unfold latin1_text, latin1_error, encode_error.
  destruct (find_run (fun c => 255 <? c) 0 t) as [[[i c] n]|] eqn:E.
  - symmetry. apply not_true_is_false. intros Hf.
    pose proof (proj2 (find_run_none (fun c => 255 <? c) t 0) Hf) as Hn.
    rewrite E in Hn. discriminate.
  - symmetry. exact (proj1 (find_run_none (fun c => 255 <? c) t 0) E).
Qed.

Lemma latin1_text_app (a b : str) :
  latin1_text a = true -> latin1_text b = true ->
  latin1_text (a ++ b) = true.
Proof.
  intros Ha Hb. rewrite latin1_text_forallb in Ha, Hb |- *.
  rewrite forallb_app. apply andb_true_iff. now split.
Qed.

(** [Response(...)] does not raise on the copied headers of a
    well-formed response. *)
Lemma init_headers_total (status : Z) (d : list (str * str))
  (mt : option str) (body : bytes) :
  forallb header_ok d = true ->
  match mt with Some t => latin1_text t | None => true end = true ->
  exists raw, init_headers status d mt body = Ret raw.
Proof.
  intros Hd Hm. unfold init_headers.
  rewrite (raw_for_each d []).
  2:{ intros kv Hin. apply header_ok_spec.
      rewrite forallb_forall in Hd. now apply Hd. }
  cbn [bind app]. destruct mt as [t|]; [|eauto].
  destruct (negb (existsb (str_eqb (lit "content-type")) (map fst d)));
    [|eauto].
  match goal with
  | |- context [encode_latin1 ?x] =>
      assert (Hx : latin1_text x = true)
        by (destruct (startswith t (lit "text/") && _);
            [apply latin1_text_app; [exact Hm | reflexivity] | exact Hm]);
      rewrite (encode_latin1_text x Hx)
  end.
  cbn [bind]. eauto.
Qed.

Lemma make_response_total (r : response) (body : bytes) :
  well_formed r = true ->
  exists r',
    (copied <- dict_of_headers (headers r) ;;
     make_response body (status_code r) copied (media_type r)) = Ret r'.
Proof.
  unfold well_formed. intros Hw.
  apply andb_true_iff in Hw. destruct Hw as [Hh Hm].
  destruct (headers_total (headers r) (headers r) [] Hh (fun _ Hin => Hin)
              eq_refl) as (d & Hd & Hok).
  unfold dict_of_headers. rewrite Hd. cbn [bind]. unfold make_response.
  destruct (init_headers_total (status_code r) d (media_type r) body Hok Hm)
    as (raw & ->).
  cbn [bind]. eauto.
Qed.

(** The middleware writes at most one row per request and deletes
    none.  If the handler leaves a table with [rows], and the response
    it may return is well formed, the store after the middleware is
    the one it was given (the handler was not reached), that table, or
    that table with one more row: the row has the next key, the time
    of the call and the operation and command the request is
    classified as. *)
Theorem log_requests_at_most_one_row
  (req : request) (call_next : handler) (now : str) (s : db)
  (rows : list row) (seq : N) :
  snd (call_next req s) = Logs rows seq ->
  (forall resp, fst (call_next req s) = Ret resp -> well_formed resp = true) ->
  let s' := snd (log_requests req call_next now s) in
  s' = s \/ s' = Logs rows seq \/
  exists r body,
    s' = Logs (rows ++ [r]) (seq + 1) /\
    row_id r = seq + 1 /\ time r = now /\
    parsed_body req = Ret body /\
    get_operation_info (method req) (path req) (dict_of_query (query req)) body
    = Ret (Some (AuditLog.operation r, command r)).
Proof.
  intros Hh Hw s'. subst s'. unfold log_requests.
  destruct (parsed_body req) as [body|e] eqn:Hb; [|now left].
  destruct (get_operation_info _ _ _ _) as [[[operation cmd]|]|e] eqn:Hi;
    [| right; now left | now left].
  assert (Hrow : forall e,
            snd (on_exception operation cmd now e (Logs rows seq))
            = Logs rows seq \/
            exists r body0,
              snd (on_exception operation cmd now e (Logs rows seq))
              = Logs (rows ++ [r]) (seq + 1) /\
              row_id r = seq + 1 /\ time r = now /\
              Ret body = Ret body0 /\
              get_operation_info (method req) (path req)
                (dict_of_query (query req)) body0
              = Ret (Some (AuditLog.operation r, command r))).
  { intros e.
    destruct (on_exception_cases operation cmd now e rows seq)
      as [-> | (r & -> & Hid & Ht & Ho & Hc)]; [now left|].
    right. exists r, body. subst operation cmd. auto. }
  destruct (call_next req s) as [[resp|e] s1]; simpl in Hh; subst s1.
  - destruct (extract_scoop_output _) as [m|e]; [|right; apply Hrow].
    destruct (append_log_cases operation cmd
                (status_code resp <? 400)%Z m now rows seq)
      as [(r & -> & Hid & Ht & Ho & Hc) | (e & -> & _)];
      [|right; apply Hrow].
    destruct (make_response_total resp (List.concat (body_iterator resp))
                (Hw resp eq_refl)) as (r' & ->).
    right. right. exists r, body. subst operation cmd. auto.
  - right. apply Hrow.
Qed.


End Paths.

Example log_requests_unaudited_routes_witness :
  log_requests (H := Sample.library)
    (Request (lit "GET") (lit "/api/logs") [] [])
    (fun _ s => (Ret (Response 200 [] None []), s)) (lit "t") (Logs [] 0)
  = (Ret (Response 200 [] None []), Logs [] 0).
Proof.
  apply (@log_requests_unaudited_routes Sample.library
           (Request (lit "GET") (lit "/api/logs") [] [])
           (fun _ s => (Ret (Response 200 [] None []), s))
           (lit "t") (Logs [] 0) (PDict [])).
  - simpl. now left.
  - reflexivity.
Defined.

Example log_requests_at_most_one_row_witness :
  exists r,
    snd (log_requests (H := Sample.library)
           (Request (lit "GET") (lit "/api/apps") [] [])
           (fun _ s => (Ret (Response 200 [] None []), s)) (lit "t")
           (Logs [] 0))
    = Logs [r] 1 /\
    row_id r = 1 /\ time r = lit "t" /\
    AuditLog.operation r = L_list_apps /\ command r = lit "scoop list".
Proof.
  destruct (@log_requests_at_most_one_row Sample.library
              (Request (lit "GET") (lit "/api/apps") [] [])
              (fun _ s => (Ret (Response 200 [] None []), s)) (lit "t")
              (Logs [] 0) [] 0 eq_refl
              ltac:(intros resp Hr; injection Hr as <-; reflexivity))
    as [Hs | [Hs | (r & body & Hs & Hid & Ht & Hb & Hi)]].
  - vm_compute in Hs. discriminate Hs.
  - vm_compute in Hs. discriminate Hs.
  - exists r. injection Hb as <-.
    assert (E : Ret (Some (L_list_apps, lit "scoop list"))
                = Ret (Some (AuditLog.operation r, command r))) by exact Hi.
    injection E as Ho Hc. repeat split; auto.
Defined.



End MiddlewareMore.

(** ** More on the handlers and the validators *)

Module HandlersMore.
Import Py Exc Parser Value Runner Handlers Bodies ParserFacts.
Local Open Scope py_scope.
Local Unset Implicit Arguments.

Lemma not_lf_match {A} (c : char) (r : list char) (a b : A) :
  c <> 10 -> match c :: r with 10 :: _ => a | _ => b end = b.
Proof.
  intros Hc. destruct c as [|p]; [reflexivity|].
  do 4 (try destruct p as [p|p|]); try reflexivity. congruence.
Qed.

Lemma name_char_not_lf (c : char) : name_char c = true -> c <> 10.
Proof. intros Hc ->. discriminate. Qed.

(** [APP_NAME_PATTERN] (also [VERSION_PATTERN]) accepts exactly the
    non-empty strings over [a-zA-Z0-9_.-], each optionally followed by
    one line feed. *)
Theorem matches_name_iff (s : str) :
  matches_name s = true <->
  exists core,
    core <> [] /\ forallb name_char core = true /\
    (s = core \/ s = core ++ [10]).
Proof.
  unfold matches_name. split.
  - destruct (rev s) as [|c r] eqn:E.
    + apply (f_equal (@rev _)) in E. rewrite rev_involutive in E. subst s.
      discriminate.
    + destruct (N.eq_dec c 10) as [-> | Hc].
      * intros Hm. exists (rev r). repeat split.
        -- intros Hr. rewrite Hr in Hm. discriminate.
        -- destruct (rev r); [discriminate | exact Hm].
        -- right. apply (f_equal (@rev _)) in E.
           now rewrite rev_involutive in E.
      * rewrite (not_lf_match c r _ _ Hc). intros Hm. exists s. repeat split.
        -- intros ->. discriminate.
        -- destruct s; [discriminate | exact Hm].
        -- now left.
  - intros (core & Hne & Hf & [-> | ->]).
    + destruct (rev core) as [|c r] eqn:E.
      * destruct core; [congruence | exact Hf].
      * assert (Hc : name_char c = true).
        { rewrite forallb_forall in Hf. apply Hf. apply in_rev.
          rewrite E. now left. }
        rewrite (not_lf_match c r _ _ (name_char_not_lf c Hc)).
        destruct core; [congruence | exact Hf].
    + rewrite rev_app_distr. simpl. rewrite rev_involutive.
      destruct core; [congruence | exact Hf].
Qed.

Lemma run_finish_success `{Library} (args : list str) (fail : str)
  (p : process) (r : bool * str) :
  (out <- run_scoop_command args p ;; finish fail out) = Ret r ->
  exit_zero p r.
Proof.
  unfold exit_zero. destruct p as [e | stdout stderr returncode |].
  - destruct e as [c m | c d]; [destruct c|]; simpl; discriminate.
  - simpl. intros Hr. exists stdout, stderr, returncode.
    destruct returncode as [z|]; simpl in Hr.
    + destruct (Z.eqb z 0) eqn:E.
      * apply Z.eqb_eq in E; subst. simpl in Hr. injection Hr as <-. auto.
      * rewrite E in Hr. simpl in Hr. discriminate.
    + injection Hr as <-. auto.
  - simpl. discriminate.
Qed.

Lemma bind_ret_inv {A B} (m : result A) (k : A -> result B) (b : B) :
  bind m k = Ret b -> exists a, m = Ret a /\ k a = Ret b.
Proof. destruct m; simpl; [eauto | discriminate]. Qed.

Lemma validate_app_name_inv (name x : str) :
  validate_app_name name = Ret x -> matches_name name = true.
Proof.
  unfold validate_app_name. destruct (matches_name name);
    [reflexivity | discriminate].
Qed.

Lemma validate_bucket_name_inv (name x : str) :
  validate_bucket_name name = Ret x -> matches_bucket name = true.
Proof.
  unfold validate_bucket_name. destruct (matches_bucket name);
    [reflexivity | discriminate].
Qed.

(** A command handler reports success only when its checks passed
    and its process exited with code 0 (or without a code); the
    payload is then the process's decoded standard output.  The batch
    handlers need a non-empty list of names; [hold_app], [unhold_app],
    [install_app] and [reset_app] a name that matches
    [APP_NAME_PATTERN], [reset_app] also a target or a version;
    [remove_bucket] a name that matches [BUCKET_NAME_PATTERN]. *)
Theorem handlers_success_exit_zero `{Library}
  (apps : list str) (name : str) (reset : ResetRequest)
  (added : AddBucketRequest) (p : process) (r : bool * str) :
  (update_apps apps p = Ret r \/ uninstall_apps apps p = Ret r \/
   hold_apps apps p = Ret r \/ unhold_apps apps p = Ret r ->
   apps <> [] /\ exit_zero p r) /\
  (hold_app name p = Ret r \/ unhold_app name p = Ret r \/
   install_app reset name p = Ret r ->
   matches_name name = true /\ exit_zero p r) /\
  (reset_app name reset p = Ret r ->
   matches_name name = true /\ reset_args name reset <> None /\
   exit_zero p r) /\
  (add_bucket added p = Ret r -> exit_zero p r) /\
  (remove_bucket name p = Ret r ->
   matches_bucket name = true /\ exit_zero p r).
Proof.
  unfold update_apps, uninstall_apps, hold_apps, unhold_apps, batch.
  split; [|split; [|split; [|split]]].
  - intros Hr. split.
    + intros ->. destruct Hr as [Hr | [Hr | [Hr | Hr]]]; discriminate.
    + destruct Hr as [Hr | [Hr | [Hr | Hr]]];
        (destruct apps; [discriminate | exact (run_finish_success _ _ _ _ Hr)]).
  - intros Hr. split.
    + destruct Hr as [Hr | [Hr | Hr]];
        apply bind_ret_inv in Hr as (x & Hv & _);
        exact (validate_app_name_inv _ _ Hv).
    + destruct Hr as [Hr | [Hr | Hr]].
      * unfold hold_app in Hr. apply bind_ret_inv in Hr as (_ & _ & Hr).
        exact (run_finish_success _ _ _ _ Hr).
      * unfold unhold_app in Hr. apply bind_ret_inv in Hr as (_ & _ & Hr).
        exact (run_finish_success _ _ _ _ Hr).
      * unfold install_app in Hr. apply bind_ret_inv in Hr as (_ & _ & Hr).
        apply bind_ret_inv in Hr as ([[stdout stderr] code] & Hrun & Hr).
        apply (run_finish_success [lit "install"; install_target reset name]
                 (lit "Failed to install app")).
        rewrite Hrun. exact Hr.
  - intros Hr. unfold reset_app in Hr.
    apply bind_ret_inv in Hr as (x & Hv & Hr).
    split; [exact (validate_app_name_inv _ _ Hv)|].
    destruct (reset_args name reset); [|discriminate].
    split; [discriminate | exact (run_finish_success _ _ _ _ Hr)].
  - intros Hr. exact (run_finish_success _ _ _ _ Hr).
  - intros Hr. unfold remove_bucket in Hr.
    apply bind_ret_inv in Hr as (x & Hv & Hr).
    split; [exact (validate_bucket_name_inv _ _ Hv)|].
    exact (run_finish_success _ _ _ _ Hr).
Qed.

Example handlers_success_exit_zero_witness :
  [lit "git"] <> [] /\
  exit_zero (H := Sample.library) (Exited (lit "ok") [] (Some 0%Z))
    (true, lit "ok").
Proof.
  apply (proj1 (@handlers_success_exit_zero Sample.library [lit "git"]
                  (lit "git")
                  {| version := None; target_app := None |}
                  {| bucket_name := lit "extras"; url := None |}
                  (Exited (lit "ok") [] (Some 0%Z)) (true, lit "ok"))).
  left. reflexivity.
Defined.

(** [get_installed_apps] never raises on the two outputs; it returns
    one record per parsed application, in the same order and with the
    parsed fields, and a record is flagged [has_update] exactly when
    the status mapping has its name, [latest_version] being the mapped
    version. *)
Theorem get_installed_apps_merge_spec `{Unicode} (list_stdout status_stdout : str) :
  exists apps updates infos,
    parse_list_output list_stdout = Ret apps /\
    parse_status_output status_stdout = Ret updates /\
    get_installed_apps_merge list_stdout status_stdout = Ret infos /\
    map a_name infos = map name apps /\
    map a_version infos = map Parser.version apps /\
    map a_held infos = map held apps /\
    Forall (fun i =>
              latest_version i = dict_get updates (a_name i) /\
              (has_update i = true <-> latest_version i <> None)) infos.
Proof.
  destruct (parse_list_output_total list_stdout) as [apps Ha].
  destruct (parse_status_output_total status_stdout) as [updates Hu].
  exists apps, updates. eexists.
  unfold get_installed_apps_merge. rewrite Ha, Hu. cbn [bind].
  repeat split; try reflexivity.
  - rewrite map_map. reflexivity.
  - rewrite map_map. reflexivity.
  - rewrite map_map. reflexivity.
  - apply Forall_forall. intros i Hi. apply in_map_iff in Hi as (a & <- & _).
    simpl. unfold dict_mem. split; [reflexivity|].
    destruct (dict_get updates (name a)); split; congruence.
Qed.

End HandlersMore.

(** ** RelatedAppsResolver *)

Module RelatedMore.
Import Py Exc Parser Value Runner Related ParserFacts.
Local Open Scope py_scope.
Local Unset Implicit Arguments.

Lemma set_mem_In (x : str) (s : set) : set_mem x s = true <-> In x s.
Proof.
  unfold set_mem. rewrite existsb_exists. split.
  - intros (y & Hy & E). apply str_eqb_eq in E. now subst.
  - intros Hx. exists x. split; [exact Hx | apply str_eqb_refl].
Qed.

Lemma set_inter_In (a b : set) (x : str) :
  In x (set_inter a b) <-> In x a /\ In x b.
Proof. unfold set_inter. now rewrite filter_In, set_mem_In. Qed.

Section Resolver.
Context `{Unicode} `{Files}.

(** What one iteration of the loop of [get_related_apps] can do. *)
Lemma related_step_inv (name : str) (target_bins : set)
  (related related' : list RelatedApp) (app : installed) :
  related_step name target_bins related app = Ret related' ->
  (related' = related /\
   (lower (i_name app) = lower name \/ truthy (i_manifest app) = false \/
    exists app_bins,
      get_app_executables (i_name app) (i_manifest app) = Ret app_bins /\
      set_inter target_bins app_bins = [])) \/
  (exists r app_bins,
     related' = related ++ [r] /\
     r_name r = i_name app /\
     lower (i_name app) <> lower name /\
     get_app_executables (i_name app) (i_manifest app) = Ret app_bins /\
     shared_bins r = set_inter target_bins app_bins /\
     shared_bins r <> []).
Proof.
  unfold related_step.
  destruct (str_eqb (lower (i_name app)) (lower name)) eqn:En.
  { intros [= <-]. left. apply str_eqb_eq in En. auto. }
  apply str_eqb_neq in En.
  destruct (truthy (i_manifest app)); cbn [negb];
    [|intros [= <-]; left; auto].
  destruct (get_app_executables _ _) as [app_bins|e]; cbn [bind];
    [|discriminate].
  destruct (set_inter target_bins app_bins) as [|b bs] eqn:Es.
  { intros [= <-]. left. split; [reflexivity|]. right. right. eauto. }
  destruct (str_field (i_version app)) as [v|e]; cbn [bind]; [|discriminate].
  destruct (str_field (i_bucket app)) as [bk|e]; cbn [bind]; [|discriminate].
  intros [= <-]. right. eexists. exists app_bins.
  repeat split; simpl; rewrite ?Es; try reflexivity; try assumption;
    discriminate.
Qed.

Lemma related_loop (name : str) (target_bins : set) (l : list installed)
  (acc rs : list RelatedApp) :
  for_each (related_step name target_bins) l acc = Ret rs ->
  exists added,
    rs = acc ++ added /\
    (forall r, In r added ->
       exists app app_bins,
         In app l /\ r_name r = i_name app /\
         lower (i_name app) <> lower name /\
         get_app_executables (i_name app) (i_manifest app) = Ret app_bins /\
         shared_bins r = set_inter target_bins app_bins /\
         shared_bins r <> []) /\
    (forall app app_bins,
       In app l -> lower (i_name app) <> lower name ->
       truthy (i_manifest app) = true ->
       get_app_executables (i_name app) (i_manifest app) = Ret app_bins ->
       set_inter target_bins app_bins <> [] ->
       exists r, In r added /\ r_name r = i_name app
                 /\ shared_bins r = set_inter target_bins app_bins).
Proof.
  revert acc; induction l as [|x l IH]; intros acc; simpl.
  - intros [= <-]. exists []. rewrite app_nil_r.
    repeat split; [intros r [] | intros app ab []].
  - destruct (related_step name target_bins acc x) as [acc'|e] eqn:Ex;
      cbn [bind]; [|discriminate].
    intros Hl. destruct (IH acc' Hl) as (added & -> & Hsound & Hcomplete).
    destruct (related_step_inv _ _ _ _ _ Ex)
      as [(-> & Hskip) | (r0 & ab0 & -> & Hn0 & Hne0 & Hb0 & Hs0 & Hs0')].
    + exists added. repeat split.
      * intros r Hr. destruct (Hsound r Hr) as (app & ab & Ha & Hrest).
        exists app, ab. split; [now right | exact Hrest].
      * intros app ab [<- | Ha] Hne Ht Hb Hi.
        -- destruct Hskip as [E | [E | (ab' & Hb' & E)]];
             [contradiction | congruence |].
           rewrite Hb in Hb'. injection Hb' as <-. contradiction.
        -- now apply (Hcomplete app ab).
    + exists (r0 :: added). rewrite <- app_assoc. repeat split.
      * intros r [<- | Hr].
        -- exists x, ab0. repeat split; auto.
        -- destruct (Hsound r Hr) as (app & ab & Ha & Hrest).
           exists app, ab. split; [now right | exact Hrest].
      * intros app ab [<- | Ha] Hne Ht Hb Hi.
        -- exists r0. repeat split; [now left | exact Hn0 |].
           rewrite Hb in Hb0. injection Hb0 as <-. exact Hs0.
        -- destruct (Hcomplete app ab Ha Hne Ht Hb Hi) as (r & Hr & Hrest).
           exists r. split; [now right | exact Hrest].
Qed.

(** Every application [get_related_apps] reports is an installed
    application other than the target (names compared in lower case)
    and carries, as [shared_bins], exactly the executables it has in
    common with the target, at least one. *)
Theorem get_related_apps_sound
  (read_manifest_file : str -> option pyval) (installed_apps : list installed)
  (name : str) (rs : list RelatedApp) (r : RelatedApp) :
  get_related_apps read_manifest_file installed_apps name = Ret rs ->
  In r rs ->
  lower (r_name r) <> lower name /\
  shared_bins r <> [] /\
  exists app target_manifest target_bins app_bins,
    In app installed_apps /\ i_name app = r_name r /\
    read_manifest_file name = Some target_manifest /\
    get_app_executables name target_manifest = Ret target_bins /\
    get_app_executables (i_name app) (i_manifest app) = Ret app_bins /\
    forall b, In b (shared_bins r) <-> In b target_bins /\ In b app_bins.
Proof.
  unfold get_related_apps.
  destruct (validate_app_name name); cbn [bind]; [|discriminate].
  destruct (read_manifest_file name) as [tm|]; [|intros [= <-] []].
  destruct (truthy tm); cbn [negb]; [|intros [= <-] []].
  destruct (get_app_executables name tm) as [tb|e] eqn:Et; cbn [bind];
    [|discriminate].
  destruct tb as [|b0 tb]; [intros [= <-] []|].
  intros Hl Hr.
  destruct (related_loop _ _ _ _ _ Hl) as (added & -> & Hsound & _).
  destruct (Hsound r Hr) as (app & ab & Ha & Hn & Hne & Hb & Hs & Hs').
  rewrite Hn. split; [exact Hne|]. split; [exact Hs'|].
  exists app, tm, (b0 :: tb), ab.
  split; [exact Ha|]. split; [reflexivity|]. split; [reflexivity|].
  split; [exact Et|]. split; [exact Hb|].
  intros b. rewrite Hs. apply set_inter_In.
Qed.

(** When [get_related_apps] returns, it has reported every installed
    application with a manifest, other than the target, that shares at
    least one executable with the target. *)
Theorem get_related_apps_complete
  (read_manifest_file : str -> option pyval) (installed_apps : list installed)
  (name : str) (rs : list RelatedApp) (app : installed)
  (target_manifest : pyval) (target_bins app_bins : set) (b : str) :
  get_related_apps read_manifest_file installed_apps name = Ret rs ->
  read_manifest_file name = Some target_manifest ->
  get_app_executables name target_manifest = Ret target_bins ->
  In app installed_apps ->
  lower (i_name app) <> lower name ->
  truthy (i_manifest app) = true ->
  get_app_executables (i_name app) (i_manifest app) = Ret app_bins ->
  In b target_bins -> In b app_bins ->
  exists r, In r rs /\ r_name r = i_name app /\ In b (shared_bins r).
Proof.
  unfold get_related_apps. intros Hg Hm Ht Ha Hne Htr Hb Hbt Hba.
  destruct (validate_app_name name); cbn [bind] in Hg; [|discriminate].
  rewrite Hm in Hg.
  destruct (truthy target_manifest) eqn:Etm; cbn [negb] in Hg.
  - rewrite Ht in Hg. cbn [bind] in Hg.
    destruct target_bins as [|b0 tb]; [destruct Hbt|].
    destruct (related_loop _ _ _ _ _ Hg) as (added & -> & _ & Hcomplete).
    assert (Hi : set_inter (b0 :: tb) app_bins <> []).
    { intros E. assert (Hx : In b (set_inter (b0 :: tb) app_bins))
        by (apply set_inter_In; auto).
      rewrite E in Hx. destruct Hx. }
    destruct (Hcomplete app app_bins Ha Hne Htr Hb Hi) as (r & Hr & Hn & Hs).
    exists r. repeat split; [exact Hr | exact Hn |].
    rewrite Hs. apply set_inter_In. auto.
  - (* a manifest that is not truthy has no executables *)
    exfalso. destruct target_manifest as [| [|] | z | f | s | l | [|kv d]];
      try discriminate; cbv in Ht; try discriminate.
    injection Ht as <-. destruct Hbt.
Qed.

End Resolver.

(** [extract_bin_names] reads no directory. *)
Lemma extract_bin_names_files (stem : str -> str)
  (e1 e2 : str -> str -> option (list str)) (bin_field : pyval) :
  @extract_bin_names (Build_Files stem e1) bin_field
  = @extract_bin_names (Build_Files stem e2) bin_field.
Proof. reflexivity. Qed.

(** The executables a manifest declares under "bin" are preferred:
    when they give at least one name, [get_app_executables] returns
    exactly those names and what the directories of [env_add_path]
    hold on disk has no influence. *)
Theorem get_app_executables_prefers_bin (stem : str -> str)
  (e1 e2 : str -> str -> option (list str))
  (app_name : str) (manifest bin_field : pyval) (bins : set) :
  get manifest (lit "bin") PNone = Ret bin_field ->
  @extract_bin_names (Build_Files stem e1) bin_field = Ret bins ->
  bins <> [] ->
  @get_app_executables (Build_Files stem e1) app_name manifest = Ret bins /\
  @get_app_executables (Build_Files stem e2) app_name manifest = Ret bins.
Proof.
  intros Hg He Hne. unfold get_app_executables. rewrite Hg. cbn [bind].
  rewrite <- (extract_bin_names_files stem e1 e2), He. cbn [bind].
  destruct bins; [congruence | split; reflexivity].
Qed.

Example get_app_executables_prefers_bin_witness :
  @get_app_executables (Build_Files (fun s => s) (fun _ _ => Some [lit "other"]))
    (lit "python311") (i_manifest SampleFiles.python311)
  = Ret [lit "python"; lit "pip"].
Proof.
  apply (proj2 (@get_app_executables_prefers_bin (fun s => s)
                  (fun _ _ => None) (fun _ _ => Some [lit "other"])
                  (lit "python311") (i_manifest SampleFiles.python311)
                  (PList [PStr (lit "python"); PStr (lit "pip")])
                  [lit "python"; lit "pip"]
                  eq_refl eq_refl ltac:(discriminate))).
Defined.

Example get_related_apps_sound_witness :
  lower (lit "python311") <> lower (lit "python") /\
  [lit "python"] <> [].
Proof.
  pose proof (@get_related_apps_sound latin1 SampleFiles.files
                SampleFiles.read_manifest
                [SampleFiles.python_self; SampleFiles.git; SampleFiles.python311]
                (lit "python")
                [Build_RelatedApp (lit "python311") (lit "3.11.9")
                   (lit "versions") [lit "python"]]
                (Build_RelatedApp (lit "python311") (lit "3.11.9")
                   (lit "versions") [lit "python"])
                eq_refl (or_introl eq_refl)) as (Hn & Hs & _).
  split; [exact Hn | exact Hs].
Defined.

Example get_related_apps_complete_witness :
  exists r,
    In r [Build_RelatedApp (lit "python311") (lit "3.11.9")
            (lit "versions") [lit "python"]] /\
    r_name r = lit "python311" /\ In (lit "python") (shared_bins r).
Proof.
  apply (@get_related_apps_complete latin1 SampleFiles.files
           SampleFiles.read_manifest
           [SampleFiles.python_self; SampleFiles.git; SampleFiles.python311]
           (lit "python") _ SampleFiles.python311 SampleFiles.python_manifest
           [lit "python"] [lit "python"; lit "pip"] (lit "python")).
  - reflexivity.
  - reflexivity.
  - reflexivity.
  - simpl. tauto.
  - vm_compute. discriminate.
  - reflexivity.
  - reflexivity.
  - simpl. tauto.
  - simpl. tauto.
Defined.

End RelatedMore.

(** ** More on the message extraction and on the remaining routes *)

Module ExtractMore.
Import Py Exc Parser Value Classifier Middleware Runner Handlers Bodies.
Import ParserFacts ClassifierMore.
Local Open Scope py_scope.
Local Unset Implicit Arguments.

Section Bodies.
Context `{Library}.

(** A response body that decodes to [null], a boolean or a number
    makes [extract_scoop_output] raise [TypeError]: the membership
    test ["message" in data] needs a container. *)
Theorem extract_scoop_output_scalar (body : bytes) (v : pyval) :
  body <> [] ->
  json_loads body = Ret v ->
  scalar v = true ->
  extract_scoop_output body
  = Raise (Exn TypeError (lit "argument of type '" ++ type_name v
                          ++ lit "' is not iterable")).
Proof.
  intros Hne Hl Hs. destruct body as [|b body]; [congruence|].
  unfold extract_scoop_output. rewrite Hl.
  destruct v; try discriminate; reflexivity.
Qed.

(** A response body that decodes to a list gives the empty message,
    whatever its elements hold, unless one of them is the string
    "message", "detail" or "results" itself. *)
Theorem extract_scoop_output_list (body : bytes) (l : list pyval) :
  body <> [] ->
  json_loads body = Ret (PList l) ->
  (forall x, In x l -> eq_str x (lit "message") = false
                       /\ eq_str x (lit "detail") = false
                       /\ eq_str x (lit "results") = false) ->
  extract_scoop_output body = Ret (PStr []).
Proof.
  intros Hne Hl Hx. destruct body as [|b body]; [congruence|].
  unfold extract_scoop_output. rewrite Hl. cbn [py_in bind].
  assert (Hno : forall k, (forall x, In x l -> eq_str x k = false) ->
                          existsb (fun x => eq_str x k) l = false).
  { intros k Hk. apply not_true_is_false. intros E.
    apply existsb_exists in E as (x & Hin & Ex). rewrite (Hk x Hin) in Ex.
    discriminate. }
  rewrite (Hno (lit "message")) by (intros x Hin; apply (Hx x Hin)).
  rewrite (Hno (lit "detail")) by (intros x Hin; apply (Hx x Hin)).
  rewrite (Hno (lit "results")) by (intros x Hin; apply (Hx x Hin)).
  reflexivity.
Qed.

Lemma lstrip_head (c : char) (s : str) :
  isspace c = false -> lstrip (c :: s) = c :: s.
Proof. intros Hc. simpl. now rewrite Hc. Qed.

(** [strip] leaves a text alone that neither starts nor ends with
    white space. *)
Lemma strip_id (c : char) (s : str) (z : char) :
  isspace c = false -> isspace z = false ->
  strip (c :: s ++ [z]) = c :: s ++ [z].
Proof.
  intros Hc Hz. unfold strip, rstrip. rewrite (lstrip_head c _ Hc).
  replace (rev (c :: s ++ [z])) with (z :: rev (c :: s)).
  2: { change (c :: s ++ [z]) with ((c :: s) ++ [z]).
       now rewrite rev_app_distr. }
  rewrite (lstrip_head z _ Hz).
  change (rev (z :: rev (c :: s))) with (rev (rev (c :: s)) ++ [z]).
  now rewrite rev_involutive.
Qed.

Lemma strip_bucket_add (name u : str) (z : char) :
  isspace z = false ->
  strip (lit "scoop bucket add " ++ name ++ lit " " ++ u ++ [z])
  = lit "scoop bucket add " ++ name ++ lit " " ++ u ++ [z].
Proof.
  intros Hz.
  assert (E : lit "scoop bucket add " ++ name ++ lit " " ++ u ++ [z]
              = 115 :: (lit "coop bucket add " ++ name ++ lit " " ++ u) ++ [z]).
  { rewrite <- !app_assoc. reflexivity. }
  rewrite E. apply strip_id; [reflexivity | exact Hz].
Qed.

(** For POST /api/buckets with a body carrying the request's name and
    url, the classifier records the command line [add_bucket] runs,
    provided the url, when given, does not end in white space. *)
Theorem add_bucket_command_agrees (query_params : dict str)
  (d : list (str * pyval)) (request : AddBucketRequest) :
  get (PDict d) (lit "name") (PStr []) = Ret (PStr (bucket_name request)) ->
  get (PDict d) (lit "url") (PStr []) = Ret (opt_str (url request)) ->
  (forall u z, url request = Some (u ++ [z]) -> isspace z = false) ->
  get_operation_info (lit "POST") (lit "/api/buckets") query_params (PDict d)
  = Ret (Some (L_add_bucket, command_line (add_bucket_args request))).
Proof.
  intros Hn Hu Hz. unfold get_operation_info. decide_ifs.
  rewrite Hn. cbn [bind]. rewrite Hu. cbn [bind format].
  unfold command_line, add_bucket_args, given.
  destruct (url request) as [u|] eqn:Eu; cbn [opt_str truthy];
    [|reflexivity].
  destruct u as [|c u]; [reflexivity|].
  destruct (exists_last (l := c :: u) ltac:(discriminate)) as (u' & z & Eq).
  rewrite Eq. rewrite Eq in Hz. specialize (Hz u' z eq_refl).
  replace (match u' ++ [z] with [] => false | _ :: _ => true end) with true
    by (destruct u'; reflexivity).
  cbn [format]. rewrite (strip_bucket_add _ _ _ Hz).
  destruct u'; reflexivity.
Qed.

(** For POST /api/apps/install the classifier records the command
    line [install_app] runs when the request gives no version and the
    body no bucket. *)
Theorem install_command_agrees (query_params : dict str)
  (d : list (str * pyval)) (request : ResetRequest) (name : str)
  (bucket : pyval) :
  dict_get query_params (lit "name") = Some name ->
  get (PDict d) (lit "bucket") (PStr []) = Ret bucket ->
  truthy bucket = false ->
  given (version request) = None ->
  get_operation_info (lit "POST") (lit "/api/apps/install") query_params (PDict d)
  = Ret (Some (L_install,
               command_line [lit "install"; install_target request name])).
Proof.
  intros Hq Hb Ht Hv. unfold get_operation_info. decide_ifs.
  rewrite Hq, Hb. cbn [bind]. rewrite Ht.
  unfold install_target. unfold given in Hv.
  destruct (version request) as [[|c v]|]; [reflexivity | discriminate | reflexivity].
Qed.

End Bodies.

Example extract_scoop_output_scalar_witness :
  extract_scoop_output (H := Sample.library) (Sample.json_text "5")
  = Raise (Exn TypeError (lit "argument of type 'int' is not iterable")).
Proof.
  apply (@extract_scoop_output_scalar Sample.library (Sample.json_text "5")
           (PInt 5) ltac:(discriminate) eq_refl eq_refl).
Defined.

Example extract_scoop_output_list_witness :
  extract_scoop_output (H := Sample.library)
    (Sample.json_text "[{'message': 'ok'}]") = Ret (PStr []).
Proof.
  apply (@extract_scoop_output_list Sample.library
           (Sample.json_text "[{'message': 'ok'}]")
           [PDict [(lit "message", PStr (lit "ok"))]]
           ltac:(discriminate) eq_refl).
  intros x [<- | []]. repeat split.
Defined.

Example add_bucket_command_agrees_witness :
  get_operation_info (H := Sample.library) (lit "POST") (lit "/api/buckets") []
    (PDict [(lit "name", PStr (lit "extras"));
            (lit "url", PStr (lit "https://github.com/ScoopInstaller/Extras"))])
  = Ret (Some (L_add_bucket,
               lit "scoop bucket add extras https://github.com/ScoopInstaller/Extras")).
Proof.
  apply (@add_bucket_command_agrees Sample.library []
           [(lit "name", PStr (lit "extras"));
            (lit "url", PStr (lit "https://github.com/ScoopInstaller/Extras"))]
           {| bucket_name := lit "extras";
              url := Some (lit "https://github.com/ScoopInstaller/Extras") |}
           eq_refl eq_refl).
  intros u z Hu. cbn [url] in Hu. injection Hu as Hu.
  assert (Hu' : lit "https://github.com/ScoopInstaller/Extra" ++ [115]
                = u ++ [z]) by exact Hu.
  apply app_inj_tail in Hu' as [_ <-]. reflexivity.
Defined.

Example install_command_agrees_witness :
  get_operation_info (H := Sample.library) (lit "POST") (lit "/api/apps/install")
    [(lit "name", lit "git")] (PDict [])
  = Ret (Some (L_install, lit "scoop install git")).
Proof.
  apply (@install_command_agrees Sample.library [(lit "name", lit "git")] []
           {| version := None; target_app := None |} (lit "git") (PStr [])
           eq_refl eq_refl eq_refl eq_refl).
Defined.

End ExtractMore.

(** ** Exception freedom of the listings *)

Module ParserBounds.
Import Py Exc Parser ParserFacts Provenance ParserMore.
Local Open Scope py_scope.
Local Unset Implicit Arguments.

Lemma parse_list_loop_length (l : list str) (apps apps' : list app_row) :
  for_each parse_list_line l apps = Ret apps' ->
  (List.length apps' <= List.length apps + List.length l)%nat.
Proof.
  revert apps; induction l as [|x l IH]; intros apps; simpl.
  - intros [= <-]. lia.
  - destruct (parse_list_line apps x) as [a1|e] eqn:E; cbn [bind];
      [|discriminate].
    intros Hl. apply IH in Hl.
    destruct (@parse_list_line_from apps a1 x E) as [-> | (r & -> & _)].
    + lia.
    + rewrite length_app in Hl. simpl in Hl. lia.
Qed.

(** [parse_list_output] never raises, whatever the text, and returns
    at most one record per line of the stripped text. *)
Theorem parse_list_output_bounded (output : str) :
  exists apps,
    parse_list_output output = Ret apps /\
    (List.length apps <= List.length (split_on 10%N (strip output)))%nat.
Proof.
  destruct (parse_list_output_total output) as [apps Ha].
  exists apps. split; [exact Ha|].
  apply (parse_list_loop_length _ [] apps Ha).
Qed.

(** The parsing of the search output never raises, for either search
    tool and any text: neither in [get_available_versions] nor in
    [search_apps].  In particular the bucket name is only taken
    between quotes from a line that has one. *)
Theorem search_listings_never_raise `{Unicode}
  (use_scoop_search : bool) (name output : str) :
  (exists versions,
     get_available_versions_parse use_scoop_search name output = Ret versions) /\
  (exists results, search_apps_parse use_scoop_search output = Ret results).
Proof.
  split.
  - apply get_available_versions_parse_total.
  - apply search_apps_parse_total.
Qed.

End ParserBounds.
